(** * Expense splitting and balance settlement (routes/expenses.js)

    A shallow embedding of the expense routes of the backend together with
    the Mongoose schemas they use (the Expense model and models/Event.js),
    and the properties of the ledger store, the balance aggregator and the
    settlement recorder.

    Modelling conventions.
    - An [ObjectId] is represented by its 24-digit hexadecimal string, the
      value of [toString()]; [equals] is equality of these strings and the
      keys of the [balances] object are these strings.
    - In the documents of the store an amount is an exact integer ([Z], an
      amount in minor currency units). What the routes do to the store, and
      which shares and entries a summary counts, is stated on these
      documents. JavaScript adds amounts as binary64 numbers: the summary
      loop is embedded a second time over binary64 amounts (module
      [Double]), where no law of exact arithmetic is available, and the
      statements that compare the summary with the reference of the
      specification are made there.
    - A string is the sequence of the bytes of its UTF-8 encoding.
    - A collection is the list of its documents in natural order; [findById]
      returns the first document with the given [_id].
    - Stored documents are taken as the schema casts them: every split has
      a [user], an [amount] and an [isPaid] flag.
    - Identifiers arrive in requests as strings; where Mongoose casts such a
      string to an ObjectId and the cast fails, the handler answers 500
      ([castObjectId]). *)

From stdpp Require Import base strings list gmap sorting.
From Stdlib Require Import ZArith Lia Ascii PrimFloat.

Local Open Scope Z_scope.

(** ** Documents *)

Abbreviation ObjectId := string.

(** [a.equals(b)] on ObjectIds. *)
Definition equals (a b : ObjectId) : bool := bool_decide (a = b).

(** Truthiness of a request parameter: [undefined] and the empty string are
    falsy. *)
Definition truthy (p : option string) : bool :=
  match p with
  | Some s => negb (bool_decide (s = ""%string))
  | None => false
  end.

Module Split.
(** An element of [expenseSchema.splitBetween]. *)
Record t := mk { user : ObjectId; amount : Z; isPaid : bool }.
End Split.

Module Expense.
(** A document of the Expense model. *)
Record t := mk {
  _id : ObjectId;
  title : string;
  amount : Z;
  category : string;
  paidBy : ObjectId;
  splitBetween : list Split.t;
  event : option ObjectId;
  community : ObjectId;
  receipt : option string;
  notes : option string;
  createdAt : Z
}.
End Expense.

Module Event.
(** The fields of models/Event.js that the expense routes touch. *)
Record t := mk {
  _id : ObjectId;
  community : ObjectId;
  expenses : list ObjectId
}.
End Event.

Module Community.
(** The fields of the Community model read by [isCommunityMember]. *)
Record t := mk {
  _id : ObjectId;
  members : list ObjectId
}.
End Community.

(** The database: one list of documents per collection. *)
Record Db := mkDb {
  expenses : list Expense.t;
  events : list Event.t;
  communities : list Community.t
}.

(** ** Balance summary: the body of GET /summary *)

(** The three accumulators of the handler. *)
Record Acc := mkAcc {
  accPaid : Z;
  accOwed : Z;
  accBalances : gmap string Z
}.

(** [if (!balances[k]) { balances[k] = 0; }]: a missing entry and a zero
    entry are both falsy. *)
Definition initBalance (k : string) (b : gmap string Z) : gmap string Z :=
  match b !! k with
  | Some v => if Z.eqb v 0 then <[k := 0]> b else b
  | None => <[k := 0]> b
  end.

(** [balances[k] += d] after the initialisation above. *)
Definition addBalance (k : string) (d : Z) (b : gmap string Z) : gmap string Z :=
  let b' := initBalance k b in
  <[k := default 0 (b' !! k) + d]> b'.

(** [balances[k] -= d] after the initialisation above. *)
Definition subBalance (k : string) (d : Z) (b : gmap string Z) : gmap string Z :=
  let b' := initBalance k b in
  <[k := default 0 (b' !! k) - d]> b'.

(** The callback of the first inner [forEach] (the viewer paid). *)
Definition paidSplit (userId : ObjectId) (st : Acc) (split : Split.t) : Acc :=
  if negb (equals (Split.user split) userId) && negb (Split.isPaid split)
  then mkAcc (accPaid st) (accOwed st)
             (addBalance (Split.user split) (Split.amount split) (accBalances st))
  else st.

(** The callback of the second inner [forEach] (the viewer owes). *)
Definition owedSplit (userId : ObjectId) (expense : Expense.t)
    (st : Acc) (split : Split.t) : Acc :=
  if equals (Split.user split) userId
     && negb (equals (Expense.paidBy expense) userId)
     && negb (Split.isPaid split)
  then mkAcc (accPaid st) (accOwed st + Split.amount split)
             (subBalance (Expense.paidBy expense) (Split.amount split)
                         (accBalances st))
  else st.

(** The callback of the outer [expenses.forEach]. *)
Definition expenseStep (userId : ObjectId) (st : Acc) (expense : Expense.t) : Acc :=
  let st1 :=
    if equals (Expense.paidBy expense) userId
    then foldl (paidSplit userId)
               (mkAcc (accPaid st + Expense.amount expense) (accOwed st)
                      (accBalances st))
               (Expense.splitBetween expense)
    else st in
  foldl (owedSplit userId expense) st1 (Expense.splitBetween expense).

(** The JSON object sent by GET /summary. *)
Record Summary := mkSummary {
  totalPaid : Z;
  totalOwed : Z;
  netBalance : Z;
  balances : gmap string Z
}.

Definition summarize (userId : ObjectId) (found : list Expense.t) : Summary :=
  let st := foldl (expenseStep userId) (mkAcc 0 0 ∅) found in
  mkSummary (accPaid st) (accOwed st) (accPaid st - accOwed st) (accBalances st).

(** ** Queries *)

(** The filter objects built by the routes: [{}], [{event: id}] or
    [{community: id}]. *)
Record Query := mkQuery {
  qEvent : option ObjectId;
  qCommunity : option ObjectId
}.

Definition matches (q : Query) (e : Expense.t) : bool :=
  match qEvent q with
  | Some ev => bool_decide (Expense.event e = Some ev)
  | None => true
  end
  &&
  match qCommunity q with
  | Some c => equals (Expense.community e) c
  | None => true
  end.

(** [Expense.find(query)]. *)
Definition find (q : Query) (coll : list Expense.t) : list Expense.t :=
  filter (λ e, matches q e) coll.

(** The value of a request parameter when it is truthy. *)
Definition truthyValue (p : option string) : option string :=
  if truthy p then p else None.

(** [.sort('-createdAt')]: descending creation time. *)
Definition newestFirst (a b : Expense.t) : Prop :=
  Expense.createdAt b ≤ Expense.createdAt a.

#[global] Instance newestFirst_dec a b : Decision (newestFirst a b).
Proof. unfold newestFirst. apply _. Defined.

Definition sortNewestFirst (l : list Expense.t) : list Expense.t :=
  merge_sort newestFirst l.

(** [Model.findById(id)] on the three collections. *)
Definition findById (id : string) (coll : list Expense.t) : option Expense.t :=
  snd <$> list_find (λ e, Expense._id e = id) coll.

Definition findEventById (id : string) (coll : list Event.t) : option Event.t :=
  snd <$> list_find (λ e, Event._id e = id) coll.

Definition findCommunityById (id : string) (coll : list Community.t)
    : option Community.t :=
  snd <$> list_find (λ c, Community._id c = id) coll.

(** [doc.save()] of a new document. *)
Definition insertOne (doc : Expense.t) (coll : list Expense.t) : list Expense.t :=
  coll ++ [doc].

(** [doc.save()] of a document loaded with [findById]. *)
Definition updateOne (doc : Expense.t) (coll : list Expense.t) : list Expense.t :=
  match list_find (λ e, Expense._id e = Expense._id doc) coll with
  | Some (i, _) => <[i := doc]> coll
  | None => coll
  end.

(** [doc.deleteOne()]. *)
Definition deleteOne (doc : Expense.t) (coll : list Expense.t) : list Expense.t :=
  match list_find (λ e, Expense._id e = Expense._id doc) coll with
  | Some (i, _) => delete i coll
  | None => coll
  end.

(** [Event.findByIdAndUpdate(id, { $push: { expenses: x } })]. *)
Definition pushExpense (id x : ObjectId) (coll : list Event.t) : list Event.t :=
  match list_find (λ e, Event._id e = id) coll with
  | Some (i, ev) =>
      <[i := Event.mk (Event._id ev) (Event.community ev) (Event.expenses ev ++ [x])]> coll
  | None => coll
  end.

(** [Event.findByIdAndUpdate(id, { $pull: { expenses: x } })]. *)
Definition pullExpense (id x : ObjectId) (coll : list Event.t) : list Event.t :=
  match list_find (λ e, Event._id e = id) coll with
  | Some (i, ev) =>
      <[i := Event.mk (Event._id ev) (Event.community ev)
                      (filter (λ y, y ≠ x) (Event.expenses ev))]> coll
  | None => coll
  end.

(** ** Responses *)

Inductive Body :=
  | Message (message : string)
  | Errors (params : list string)
  | ExpenseList (docs : list Expense.t)
  | ExpenseDoc (doc : Expense.t)
  | SummaryDoc (s : Summary)
  | Thrown.

(** [res.status(status).json(body)]; [res.json(body)] has status 200.
    [Thrown] is the body [{ message: error.message }] of the [catch]
    clauses, whose text is not modelled. *)
Record Response := mkResponse { status : Z; body : Body }.

(** The error taxonomy of the expense routes: 400 with an [errors] array is
    a validation error, 400 with a message is the missing scope, 404 is not
    found, 403 is permission denied, 500 is the answer of the [catch]
    clauses. *)
Inductive Outcome :=
  | Success | ValidationError | InvalidScope | NotFound | PermissionDenied
  | InternalError | Other.

#[global] Instance Outcome_eq_dec : EqDecision Outcome.
Proof. solve_decision. Defined.

Definition outcome (r : Response) : Outcome :=
  match status r, body r with
  | 200, _ => Success
  | 201, _ => Success
  | 400, Errors _ => ValidationError
  | 400, Message _ => InvalidScope
  | 404, _ => NotFound
  | 403, _ => PermissionDenied
  | 500, _ => InternalError
  | _, _ => Other
  end.

(** ** Identifiers in requests *)

Definition isHexDigit (c : ascii) : bool :=
  let n := N_of_ascii c in
  ((48 <=? n) && (n <=? 57) || (65 <=? n) && (n <=? 70)
   || (97 <=? n) && (n <=? 102))%N.

(** [isHexadecimal] of the validator library, the pattern
    [/^(0x|0h)?[0-9A-F]+$/i]: one or more hexadecimal digits, after an
    optional prefix [0x] or [0h] in either case. *)
Definition isHexadecimal (l : list ascii) : bool :=
  let digits (d : list ascii) :=
    negb (bool_decide (d = [])) && forallb isHexDigit d in
  digits l
  || match l with
     | "0"%char :: p :: d =>
         bool_decide (p ∈ ["x"; "X"; "h"; "H"]%char) && digits d
     | _ => false
     end.

(** [.isMongoId()]: [isHexadecimal(str) && str.length === 24]. *)
Definition isMongoId (s : string) : bool :=
  let l := String.list_ascii_of_string s in
  isHexadecimal l && bool_decide (length l = 24%nat).

(** The pattern [/^[0-9a-fA-F]{24}$/] with which the ObjectId constructor
    tests a string. *)
Definition checkForHexRegExp (s : string) : bool :=
  let l := String.list_ascii_of_string s in
  bool_decide (length l = 24%nat) && forallb isHexDigit l.

Definition toLower (c : ascii) : ascii :=
  let n := N_of_ascii c in
  if ((65 <=? n) && (n <=? 90))%N then ascii_of_N (n + 32) else c.

(** The cast of a request string to an ObjectId, made by Mongoose when the
    string is used as an identifier in a query or in a document. The
    identifier is written with lower-case digits, as [toString()] does; a
    string that is not an identifier makes the operation throw, and the
    [catch] clause of the handler answers 500. Some versions of the driver
    also read a string of 12 bytes as the bytes of an identifier; the
    statements about a failed cast leave such strings out. *)
Definition castObjectId (s : string) : option ObjectId :=
  if checkForHexRegExp s
  then Some (String.string_of_list_ascii
               (toLower <$> String.list_ascii_of_string s))
  else None.

Definition castError : Response := mkResponse 500 Thrown.

(** ** GET / : expenses of a community or an event *)

Definition getExpenses (db : Db) (communityId eventId : option string) : Response :=
  match truthyValue eventId with
  | Some ev =>
      match castObjectId ev with
      | Some ev =>
          mkResponse 200 (ExpenseList
            (sortNewestFirst (find (mkQuery (Some ev) None) (expenses db))))
      | None => castError
      end
  | None =>
      match truthyValue communityId with
      | Some c =>
          match castObjectId c with
          | Some c =>
              mkResponse 200 (ExpenseList
                (sortNewestFirst (find (mkQuery None (Some c)) (expenses db))))
          | None => castError
          end
      | None => mkResponse 400 (Message "Community or event ID required")
      end
  end.

(** ** GET /summary *)

(** The query of the handler; [None] when the cast of the identifier fails. *)
Definition summaryQuery (communityId eventId : option string) : option Query :=
  match truthyValue eventId with
  | Some ev => (λ ev, mkQuery (Some ev) None) <$> castObjectId ev
  | None =>
      match truthyValue communityId with
      | Some c => (λ c, mkQuery None (Some c)) <$> castObjectId c
      | None => Some (mkQuery None None)
      end
  end.

Definition getSummary (db : Db) (userId : ObjectId)
    (communityId eventId : option string) : Response :=
  match summaryQuery communityId eventId with
  | Some query =>
      mkResponse 200 (SummaryDoc (summarize userId (find query (expenses db))))
  | None => castError
  end.

(** ** POST /create *)

(** The request body after the body parser; [amount] is the numeric value of
    the field when the field is a float literal. [splitBetween] is the array
    that [JSON.parse] and the cast of the schema make of the field;
    [splitsThrow] tells that [JSON.parse] throws on the field or that the
    schema cannot cast one of its elements, so that [expense.save()]
    throws. *)
Record CreateBody := mkCreateBody {
  title : option string;
  amount : option Z;
  category : option string;
  communityId : option string;
  splitBetween : list Split.t;
  splitsThrow : bool;
  eventId : option string;
  notes : option string
}.

(** The characters that the pattern [\s] matches, by the bytes of their
    UTF-8 encoding: tab, line feed, vertical tab, form feed, carriage return
    and space; U+00A0; U+1680, U+2000 to U+200A, U+2028, U+2029, U+202F,
    U+205F, U+3000 and U+FEFF. *)
Definition isSpace (c : ascii) : bool :=
  bool_decide (N_of_ascii c ∈ [9; 10; 11; 12; 13; 32]%N).

Definition isSpace2 (c1 c2 : ascii) : bool :=
  bool_decide ((N_of_ascii c1, N_of_ascii c2) = (194, 160)%N).

Definition isSpace3 (c1 c2 c3 : ascii) : bool :=
  let n1 := N_of_ascii c1 in
  let n2 := N_of_ascii c2 in
  let n3 := N_of_ascii c3 in
  bool_decide ((n1, n2, n3) = (225, 154, 128)%N)
  || bool_decide (n1 = 226%N ∧ n2 = 128%N
                  ∧ (128 ≤ n3 ≤ 138 ∨ n3 = 168 ∨ n3 = 169 ∨ n3 = 175)%N)
  || bool_decide ((n1, n2, n3) = (226, 129, 159)%N)
  || bool_decide ((n1, n2, n3) = (227, 128, 128)%N)
  || bool_decide ((n1, n2, n3) = (239, 187, 191)%N).

(** The string without the white space at its start; [w2] and [w3]
    recognise the characters of two and of three bytes. *)
Fixpoint dropSpaces (w2 : ascii → ascii → bool) (w3 : ascii → ascii → ascii → bool)
    (l : list ascii) : list ascii :=
  match l with
  | c1 :: l1 =>
      if isSpace c1 then dropSpaces w2 w3 l1
      else match l1 with
           | c2 :: l2 =>
               if w2 c1 c2 then dropSpaces w2 w3 l2
               else match l2 with
                    | c3 :: l3 =>
                        if w3 c1 c2 c3 then dropSpaces w2 w3 l3 else l
                    | [] => l
                    end
           | [] => l
           end
  | [] => []
  end.

(** [.trim()] of express-validator: white space is removed at the start,
    then at the end, where the bytes of a character are met in reverse. *)
Definition trim (s : string) : string :=
  String.string_of_list_ascii
    (rev (dropSpaces (λ c2 c1, isSpace2 c1 c2) (λ c3 c2 c1, isSpace3 c1 c2 c3)
            (rev (dropSpaces isSpace2 isSpace3
                    (String.list_ascii_of_string s))))).

Definition categories : list string :=
  ["food"; "transport"; "accommodation"; "entertainment"; "other"]%string.

(** One validator of the chain: the parameter it reports when it fails. *)
Definition check (ok : bool) (param : string) : list string :=
  if ok then [] else [param].

(** [validationResult(req)] for the four checks of the route. *)
Definition validationResult (b : CreateBody) : list string :=
  check (negb (bool_decide (trim (default "" (title b)) = ""))) "title"
  ++ check (match amount b with Some a => bool_decide (0 ≤ a) | None => false end)
           "amount"
  ++ check (bool_decide (default "" (category b) ∈ categories)) "category"
  ++ check (isMongoId (default "" (communityId b))) "communityId".

(** The [event] field of the new document: absent when the request has no
    [eventId], the cast of [eventId] otherwise; [None] when that cast fails,
    which [expense.save()] reports by throwing. *)
Definition castEvent (eventId : option string) : option (option ObjectId) :=
  match eventId with
  | Some s => Some <$> castObjectId s
  | None => Some None
  end.

(** The route: validation, [isCommunityMember], then the handler.  [newId]
    is the identifier given to the new document and [now] the value of
    [Date.now]; [file] is the path of the uploaded receipt. An [eventId]
    or a [splitBetween] that cannot be parsed or cast makes the handler
    throw before anything is stored. *)
Definition createExpense (db : Db) (requester : ObjectId) (b : CreateBody)
    (file : option string) (newId : ObjectId) (now : Z) : Response * Db :=
  match validationResult b with
  | (_ :: _) as errors => (mkResponse 400 (Errors errors), db)
  | [] =>
      match castObjectId (default "" (communityId b)) with
      | None => (castError, db)
      | Some communityId =>
      match findCommunityById communityId (communities db) with
      | None => (mkResponse 404 (Message "Community not found"), db)
      | Some c =>
          if negb (bool_decide (requester ∈ Community.members c))
          then (mkResponse 403 (Message "Not a member of this community"), db)
          else
            match castEvent (eventId b) with
            | None => (castError, db)
            | Some event =>
                if splitsThrow b then (castError, db) else
                let expense :=
                  Expense.mk newId (trim (default "" (title b)))
                    (default 0 (amount b)) (default "" (category b))
                    requester (splitBetween b) event
                    (Community._id c) file (notes b) now in
                let evs :=
                  match truthyValue (eventId b), event with
                  | Some _, Some ev => pushExpense ev newId (events db)
                  | _, _ => events db
                  end in
                (mkResponse 201 (ExpenseDoc expense),
                 mkDb (insertOne expense (expenses db)) evs (communities db))
            end
      end
      end
  end.

(** ** PUT /:expenseId/pay/:userId *)

Definition markPaid (s : Split.t) : Split.t :=
  Split.mk (Split.user s) (Split.amount s) true.

Definition withSplits (e : Expense.t) (l : list Split.t) : Expense.t :=
  Expense.mk (Expense._id e) (Expense.title e) (Expense.amount e)
    (Expense.category e) (Expense.paidBy e) l (Expense.event e)
    (Expense.community e) (Expense.receipt e) (Expense.notes e)
    (Expense.createdAt e).

Definition payExpense (db : Db) (expenseId userId : string)
    (requester : ObjectId) : Response * Db :=
  match castObjectId expenseId with
  | None => (castError, db)
  | Some id =>
  match findById id (expenses db) with
  | None => (mkResponse 404 (Message "Expense not found"), db)
  | Some expense =>
      match list_find (λ s, Split.user s = userId) (Expense.splitBetween expense) with
      | None => (mkResponse 404 (Message "User not found in expense split"), db)
      | Some (i, split) =>
          if negb (equals (Expense.paidBy expense) requester)
             && negb (equals (Split.user split) requester)
          then (mkResponse 403 (Message "Permission denied"), db)
          else
            let expense' :=
              withSplits expense
                (<[i := markPaid split]> (Expense.splitBetween expense)) in
            (mkResponse 200 (Message "Marked as paid"),
             mkDb (updateOne expense' (expenses db)) (events db) (communities db))
      end
  end
  end.

(** ** DELETE /:expenseId *)

Definition deleteExpense (db : Db) (expenseId : string) (requester : ObjectId)
    : Response * Db :=
  match castObjectId expenseId with
  | None => (castError, db)
  | Some id =>
  match findById id (expenses db) with
  | None => (mkResponse 404 (Message "Expense not found"), db)
  | Some expense =>
      if negb (equals (Expense.paidBy expense) requester)
      then (mkResponse 403 (Message "Only the creator can delete this expense"), db)
      else
        let db1 :=
          match Expense.event expense with
          | Some ev =>
              mkDb (expenses db) (pullExpense ev (Expense._id expense) (events db))
                   (communities db)
          | None => db
          end in
        (mkResponse 200 (Message "Expense deleted successfully"),
         mkDb (deleteOne expense (expenses db1)) (events db1) (communities db1))
  end
  end.

(** ** Operations as a transition system *)

(** A state-changing request of the expense routes together with what the
    environment supplies to it. *)
Inductive Op :=
  | Create (requester : ObjectId) (b : CreateBody) (file : option string)
           (newId : ObjectId) (now : Z)
  | Pay (expenseId userId : string) (requester : ObjectId)
  | Delete (expenseId : string) (requester : ObjectId).

Definition step (db : Db) (op : Op) : Response * Db :=
  match op with
  | Create requester b file newId now => createExpense db requester b file newId now
  | Pay expenseId userId requester => payExpense db expenseId userId requester
  | Delete expenseId requester => deleteExpense db expenseId requester
  end.

(** The store after a sequence of requests. *)
Definition run (db : Db) (ops : list Op) : Db :=
  foldl (λ d op, (step d op).2) db ops.

(** ** The parts of the balance summary as the specification words them
    (section 4.2)

    The definitions below follow the text of the specification, not the
    handler: the entries and the shares that each step selects, and a
    balances map in which a missing counterparty counts as zero. *)

Definition sumZ (l : list Z) : Z := foldr Z.add 0 l.

Definition unsettledFor (debtor : ObjectId) (s : Split.t) : Prop :=
  Split.user s = debtor ∧ Split.isPaid s = false.

Definition unsettledNotFor (viewer : ObjectId) (s : Split.t) : Prop :=
  Split.user s ≠ viewer ∧ Split.isPaid s = false.

#[global] Instance unsettledFor_dec d s : Decision (unsettledFor d s).
Proof. unfold unsettledFor. apply _. Defined.

#[global] Instance unsettledNotFor_dec d s : Decision (unsettledNotFor d s).
Proof. unfold unsettledNotFor. apply _. Defined.

(** Step 2, first half: the sum of [amount] over the entries the viewer paid. *)
Definition specTotalPaid (viewer : ObjectId) (es : list Expense.t) : Z :=
  sumZ (Expense.amount <$> filter (λ e, Expense.paidBy e = viewer) es).

(** Step 2, second half: what one entry paid by the viewer adds, per debtor. *)
Definition creditsOf (viewer : ObjectId) (e : Expense.t) : list (string * Z) :=
  (λ s, (Split.user s, Split.amount s))
    <$> filter (unsettledNotFor viewer) (Expense.splitBetween e).

(** Step 3: what one entry paid by someone else takes from its payer. *)
Definition debitsOf (viewer : ObjectId) (e : Expense.t) : list (string * Z) :=
  (λ s, (Expense.paidBy e, Split.amount s))
    <$> filter (unsettledFor viewer) (Expense.splitBetween e).

Definition specDebits (viewer : ObjectId) (es : list Expense.t)
    : list (string * Z) :=
  filter (λ e, Expense.paidBy e ≠ viewer) es ≫= debitsOf viewer.

Definition specTotalOwed (viewer : ObjectId) (es : list Expense.t) : Z :=
  sumZ (snd <$> specDebits viewer es).

(** Adding [d] to [balances[k]], a missing entry counting as zero. *)
Definition adjust (b : gmap string Z) (kd : string * Z) : gmap string Z :=
  <[kd.1 := default 0 (b !! kd.1) + kd.2]> b.

Definition deduct (b : gmap string Z) (kd : string * Z) : gmap string Z :=
  <[kd.1 := default 0 (b !! kd.1) - kd.2]> b.

(** ** Predicates used in the statements *)

(** Every share of every entry is settled. *)
Definition allSettled (es : list Expense.t) : Prop :=
  ∀ e s, e ∈ es → s ∈ Expense.splitBetween e → Split.isPaid s = true.

(** Each debtor appears in at most one share of the entry. *)
Definition uniqueDebtors (e : Expense.t) : Prop :=
  NoDup (Split.user <$> Expense.splitBetween e).

(** The entry carries an unsettled debt of [debtor] towards [payer]. *)
Definition owes (debtor payer : ObjectId) (e : Expense.t) : Prop :=
  Expense.paidBy e = payer ∧
  ∃ s, s ∈ Expense.splitBetween e ∧ unsettledFor debtor s.

(** A creation request whose shares name each debtor at most once. *)
Definition distinctDebtors (op : Op) : Prop :=
  match op with
  | Create _ b _ _ _ => NoDup (Split.user <$> splitBetween b)
  | _ => True
  end.

(** The constraints that the validators of POST /create impose on the
    amount, the category and the community. *)
Definition acceptable (b : CreateBody) : Prop :=
  (∃ a, amount b = Some a ∧ 0 ≤ a) ∧
  (∃ c, category b = Some c ∧ c ∈ categories) ∧
  (∃ id, communityId b = Some id ∧ isMongoId id = true).

(** The change of sign that turns a deduction into an addition. *)
Definition neg (kd : string * Z) : string * Z := (kd.1, - kd.2).

(** What the outer callback does to the balances for one entry. *)
Definition contribs (viewer : ObjectId) (e : Expense.t) : list (string * Z) :=
  if decide (Expense.paidBy e = viewer)
  then creditsOf viewer e
  else neg <$> debitsOf viewer e.

(** The amounts recorded under one key. *)
Definition amountsAt (k : string) (l : list (string * Z)) : list Z :=
  snd <$> filter (λ kd, kd.1 = k) l.

(** The entry belongs to the event, respectively to the community. *)
Definition inEvent (ev : ObjectId) (e : Expense.t) : Prop :=
  Expense.event e = Some ev.

Definition inCommunity (c : ObjectId) (e : Expense.t) : Prop :=
  Expense.community e = c.

#[global] Instance inEvent_dec ev e : Decision (inEvent ev e).
Proof. unfold inEvent. apply _. Defined.

#[global] Instance inCommunity_dec c e : Decision (inCommunity c e).
Proof. unfold inCommunity. apply _. Defined.

(** The share of a debtor in an entry: the first share that names them,
    at position [i]. *)
Definition shareOf (userId : string) (e : Expense.t) (i : nat) (s : Split.t)
    : Prop :=
  Expense.splitBetween e !! i = Some s
  ∧ Split.user s = userId
  ∧ ∀ j s', Expense.splitBetween e !! j = Some s' → (j < i)%nat →
            Split.user s' ≠ userId.

(** ** Sample data *)

Definition alice : ObjectId := "64b7f0a1c2d3e4f5a6b7c8a1".
Definition bob : ObjectId := "64b7f0a1c2d3e4f5a6b7c8b2".
Definition carol : ObjectId := "64b7f0a1c2d3e4f5a6b7c8c3".
Definition hostel : ObjectId := "64b7f0a1c2d3e4f5a6b7c8d4".
Definition trip : ObjectId := "64b7f0a1c2d3e4f5a6b7c8e5".
Definition dinnerId : ObjectId := "64b7f0a1c2d3e4f5a6b7c8f6".
Definition taxiId : ObjectId := "64b7f0a1c2d3e4f5a6b7c8f7".

(** The scenario of the specification: alice paid 100, bob and carol owe
    50 each. *)
Definition dinner : Expense.t :=
  Expense.mk dinnerId "Dinner" 100 "food" alice
    [Split.mk bob 50 false; Split.mk carol 50 false]
    (Some trip) hostel None None 1000.

(** The same entry once both shares are settled. *)
Definition dinnerSettled : Expense.t :=
  withSplits dinner [Split.mk bob 50 true; Split.mk carol 50 true].

(** An entry in which bob is named in two shares. *)
Definition taxi : Expense.t :=
  Expense.mk taxiId "Taxi" 80 "transport" alice
    [Split.mk bob 50 false; Split.mk bob 30 false]
    None hostel None None 2000.

Definition sampleDb : Db :=
  mkDb [dinner]
       [Event.mk trip hostel [dinnerId]]
       [Community.mk hostel [alice; bob; carol]].

(** A store with a community and an event, and no entry yet. *)
Definition campus : Db :=
  mkDb [] [Event.mk trip hostel []] [Community.mk hostel [alice; bob; carol]].

(** Creation requests: the dinner of the scenario, the taxi ride with two
    shares for bob, and an entry of amount zero. *)
Definition dinnerBody : CreateBody :=
  mkCreateBody (Some "Dinner") (Some 100) (Some "food") (Some hostel)
    [Split.mk bob 50 false; Split.mk carol 50 false] false (Some trip) None.

Definition taxiBody : CreateBody :=
  mkCreateBody (Some "Taxi") (Some 80) (Some "transport") (Some hostel)
    [Split.mk bob 50 false; Split.mk bob 30 false] false None None.

Definition waterBody : CreateBody :=
  mkCreateBody (Some "Water") (Some 0) (Some "food") (Some hostel)
    [Split.mk bob 0 false] false None None.

Definition negativeBody : CreateBody :=
  mkCreateBody (Some "Refund") (Some (-5)) (Some "food") (Some hostel)
    [Split.mk bob 5 false] false None None.

(** White space outside ASCII: U+00A0 and U+2003. *)
Definition nbsp : string := String "194" (String "160" "").
Definition emSpace : string := String "226" (String "128" (String "131" "")).

(** A request whose title is white space only and whose amount is
    negative, and a request whose community identifier has the prefix that
    the validator admits. *)
Definition blankBody : CreateBody :=
  mkCreateBody (Some (nbsp +:+ " " +:+ emSpace)) (Some (-5)) (Some "food")
    (Some hostel) [] false None None.

Definition prefixedBody : CreateBody :=
  mkCreateBody (Some "Dinner") (Some 100) (Some "food")
    (Some "0x64b7f0a1c2d3e4f5a6b7c8") [] false None None.

Definition garbledBody : CreateBody :=
  mkCreateBody (Some "Dinner") (Some 100) (Some "food") (Some hostel)
    [] true None None.

(** ** Relations between a store and a later store *)

(** A share after a settlement: the same debtor and amount, and settled if
    it was. *)
Definition settledFrom (s s' : Split.t) : Prop :=
  Split.user s' = Split.user s
  ∧ Split.amount s' = Split.amount s
  ∧ (Split.isPaid s = true → Split.isPaid s' = true).

(** An entry after a settlement: the same document but for its shares,
    which correspond position by position. *)
Definition settledEntry (e e' : Expense.t) : Prop :=
  withSplits e' (Expense.splitBetween e) = e
  ∧ Forall2 settledFrom (Expense.splitBetween e) (Expense.splitBetween e').

(** The identifier given to a new document is not in use. *)
Definition freshId (db : Db) (op : Op) : Prop :=
  match op with
  | Create _ _ _ newId _ => newId ∉ Expense._id <$> expenses db
  | _ => True
  end.

(** The same along a sequence of requests, each identifier being compared
    with the store the request finds. *)
Fixpoint freshIds (db : Db) (ops : list Op) : Prop :=
  match ops with
  | [] => True
  | op :: ops => freshId db op ∧ freshIds (step db op).2 ops
  end.

(** The entry lists of the events agree with the entries: the list of an
    event holds exactly the identifiers of the stored entries that refer to
    it. *)
Definition linked (db : Db) : Prop :=
  ∀ ev doc, findEventById ev (events db) = Some doc →
  ∀ x, x ∈ Event.expenses doc ↔
       ∃ e, e ∈ expenses db ∧ Expense._id e = x ∧ Expense.event e = Some ev.

(** The identifier and the event of an entry. *)
Definition linkOf (e : Expense.t) : ObjectId * option ObjectId :=
  (Expense._id e, Expense.event e).

(** ** utils/cloudinary.js: the upload filters *)

(** The value of [object[key]] for an object literal whose own values are
    strings: an own value, or, for a key that the literal does not have, a
    member inherited from [Object.prototype]. *)
Inductive Member :=
  | Text (value : string)
  | Inherited (name : string).

Definition objectPrototype : list string :=
  ["constructor"; "__defineGetter__"; "__defineSetter__"; "hasOwnProperty";
   "__lookupGetter__"; "__lookupSetter__"; "isPrototypeOf";
   "propertyIsEnumerable"; "toString"; "valueOf"; "__proto__";
   "toLocaleString"]%string.

Definition extensions : list (string * string) :=
  [("application/pdf", "pdf");
   ("application/msword", "doc");
   ("application/vnd.openxmlformats-officedocument.wordprocessingml.document", "docx");
   ("application/vnd.ms-powerpoint", "ppt");
   ("application/vnd.openxmlformats-officedocument.presentationml.presentation", "pptx");
   ("application/vnd.ms-excel", "xls");
   ("application/vnd.openxmlformats-officedocument.spreadsheetml.sheet", "xlsx");
   ("image/jpeg", "jpg");
   ("image/jpg", "jpg");
   ("image/png", "png");
   ("image/gif", "gif");
   ("text/plain", "txt");
   ("application/zip", "zip");
   ("application/x-rar-compressed", "rar")]%string.

(** [extensions[mimetype] || 'unknown']. *)
Definition getFileExtension (mimetype : string) : Member :=
  match list_find (λ kv : string * string, kv.1 = mimetype) extensions with
  | Some (_, kv) =>
      if bool_decide (kv.2 = ""%string) then Text "unknown" else Text kv.2
  | None =>
      if bool_decide (mimetype ∈ objectPrototype)
      then Inherited mimetype
      else Text "unknown"
  end.

Definition imageTypes : list string :=
  ["image/jpeg"; "image/jpg"; "image/png"; "image/gif"]%string.

Definition videoTypes : list string :=
  ["video/mp4"; "video/mov"; "video/avi"; "video/webm"]%string.

Definition getResourceType (mimetype : string) : string :=
  if bool_decide (mimetype ∈ imageTypes) then "image"
  else if bool_decide (mimetype ∈ videoTypes) then "video"
  else "raw".

(** The [fileFilter] callbacks: [None] for [cb(null, true)], the message of
    the error otherwise. *)
Definition noteFilter (mimetype : string) : option string :=
  if bool_decide
       (mimetype ∈
          ["application/pdf";
           "application/msword";
           "application/vnd.openxmlformats-officedocument.wordprocessingml.document";
           "application/vnd.ms-powerpoint";
           "application/vnd.openxmlformats-officedocument.presentationml.presentation";
           "application/vnd.ms-excel";
           "application/vnd.openxmlformats-officedocument.spreadsheetml.sheet";
           "image/jpeg";
           "image/jpg";
           "image/png";
           "image/gif";
           "text/plain";
           "application/zip";
           "application/x-rar-compressed"]%string)
  then None
  else Some ("Invalid file type: " +:+ mimetype
             +:+ ". Only documents and images are allowed.").

Definition mediaFilter (mimetype : string) : option string :=
  if bool_decide
       (mimetype ∈
          ["image/jpeg"; "image/jpg"; "image/png"; "image/gif";
           "video/mp4"; "video/mov"; "video/avi"; "video/webm"]%string)
  then None
  else Some "Invalid file type. Only images and videos are allowed.".

Definition profileFilter (mimetype : string) : option string :=
  if bool_decide (mimetype ∈ ["image/jpeg"; "image/jpg"; "image/png"]%string)
  then None
  else Some "Invalid file type. Only JPG and PNG images are allowed.".

Module File.
(** An uploaded file: its declared type, its size in bytes and the address
    that the storage gives it. *)
Record t := mk { mimetype : string; size : Z; path : string }.
End File.

(** [limits.fileSize] of [mediaUpload]. *)
Definition mediaFileSize : Z := 100 * 1024 * 1024.

(** [upload.single(field)]: the message of the error passed to [next], or
    the path of [req.file], absent when the request carries no file. A file
    is refused as soon as its size reaches [limits.fileSize]. *)
Definition single (fileFilter : string → option string) (fileSize : Z)
    (f : option File.t) : string + option string :=
  match f with
  | None => inr None
  | Some f =>
      match fileFilter (File.mimetype f) with
      | Some message => inl message
      | None =>
          if bool_decide (File.size f < fileSize)
          then inr (Some (File.path f))
          else inl "File too large"%string
      end
  end.

(** The error handling middleware of the application. *)
Definition errorHandler (message : string) : Response :=
  mkResponse 500
    (Message (if bool_decide (message = ""%string)
              then "Something went wrong!"%string else message)).

(** POST /create with its upload middleware. *)
Definition postCreate (db : Db) (requester : ObjectId) (b : CreateBody)
    (receipt : option File.t) (newId : ObjectId) (now : Z) : Response * Db :=
  match single mediaFilter mediaFileSize receipt with
  | inl message => (errorHandler message, db)
  | inr file => createExpense db requester b file newId now
  end.

(** [s.includes(p)] and [s.replace(p, r)] for a pattern string. *)
Fixpoint includes (s p : string) : bool :=
  String.prefix p s
  || match s with
     | EmptyString => false
     | String _ s' => includes s' p
     end.

Fixpoint skip (n : nat) (s : string) : string :=
  match n, s with
  | S n, String _ s' => skip n s'
  | _, _ => s
  end.

Fixpoint replace (s p r : string) : string :=
  if String.prefix p s then r +:+ skip (String.length p) s
  else match s with
       | EmptyString => EmptyString
       | String c s' => String c (replace s' p r)
       end.

Definition getFileUrl (fileUrl : string) : string :=
  if includes fileUrl "/image/upload/"
     && (includes fileUrl ".pdf" || includes fileUrl ".doc"
         || includes fileUrl ".xls" || includes fileUrl ".ppt")
  then replace fileUrl "/image/upload/" "/raw/upload/"
  else fileUrl.

(** ** Settlements by position *)

(** The store once share [i] of entry [n] is marked as paid. *)
Definition markShare (n i : nat) (l : list Expense.t) : list Expense.t :=
  alter (λ e, withSplits e (alter markPaid i (Expense.splitBetween e))) n l.

(** The positions of the entry and of the share that an accepted
    PUT /:expenseId/pay/:userId marks; [None] when the request is refused. *)
Definition target (db : Db) (expenseId userId : string) (requester : ObjectId)
    : option (nat * nat) :=
  match castObjectId expenseId with
  | None => None
  | Some id =>
      match list_find (λ x, Expense._id x = id) (expenses db) with
      | None => None
      | Some (n, e) =>
          match list_find (λ x, Split.user x = userId) (Expense.splitBetween e) with
          | None => None
          | Some (i, s) =>
              if negb (equals (Expense.paidBy e) requester)
                 && negb (equals (Split.user s) requester)
              then None
              else Some (n, i)
          end
      end
  end.

(** * The balance summary over binary64 numbers

    The handler of GET /summary once more, on the fields of the documents
    that it reads and with amounts as JavaScript has them: binary64 values,
    whose addition rounds and is not associative, and among which both
    zeros and NaN are falsy. [Summary] is the object that the handler
    passes to [res.json]. *)

Module Double.

Module Split.
Record t := mk { user : ObjectId; amount : float; isPaid : bool }.
End Split.

Module Expense.
(** The fields of an Expense document that the handler reads. *)
Record t := mk {
  amount : float;
  paidBy : ObjectId;
  splitBetween : list Split.t
}.
End Expense.

Record Acc := mkAcc {
  accPaid : float;
  accOwed : float;
  accBalances : gmap string float
}.

(** [!x] for a number. *)
Definition falsy (x : float) : bool := is_zero x || is_nan x.

(** [if (!balances[k]) { balances[k] = 0; }]. *)
Definition initBalance (k : string) (b : gmap string float) : gmap string float :=
  match b !! k with
  | Some v => if falsy v then <[k := 0%float]> b else b
  | None => <[k := 0%float]> b
  end.

Definition addBalance (k : string) (d : float) (b : gmap string float)
    : gmap string float :=
  let b' := initBalance k b in
  <[k := (default 0 (b' !! k) + d)%float]> b'.

Definition subBalance (k : string) (d : float) (b : gmap string float)
    : gmap string float :=
  let b' := initBalance k b in
  <[k := (default 0 (b' !! k) - d)%float]> b'.

Definition paidSplit (userId : ObjectId) (st : Acc) (split : Split.t) : Acc :=
  if negb (equals (Split.user split) userId) && negb (Split.isPaid split)
  then mkAcc (accPaid st) (accOwed st)
             (addBalance (Split.user split) (Split.amount split) (accBalances st))
  else st.

Definition owedSplit (userId : ObjectId) (expense : Expense.t)
    (st : Acc) (split : Split.t) : Acc :=
  if equals (Split.user split) userId
     && negb (equals (Expense.paidBy expense) userId)
     && negb (Split.isPaid split)
  then mkAcc (accPaid st) (accOwed st + Split.amount split)%float
             (subBalance (Expense.paidBy expense) (Split.amount split)
                         (accBalances st))
  else st.

Definition expenseStep (userId : ObjectId) (st : Acc) (expense : Expense.t) : Acc :=
  let st1 :=
    if equals (Expense.paidBy expense) userId
    then foldl (paidSplit userId)
               (mkAcc (accPaid st + Expense.amount expense)%float (accOwed st)
                      (accBalances st))
               (Expense.splitBetween expense)
    else st in
  foldl (owedSplit userId expense) st1 (Expense.splitBetween expense).

Record Summary := mkSummary {
  totalPaid : float;
  totalOwed : float;
  netBalance : float;
  balances : gmap string float
}.

Definition summarize (userId : ObjectId) (found : list Expense.t) : Summary :=
  let st := foldl (expenseStep userId) (mkAcc 0 0 ∅) found in
  mkSummary (accPaid st) (accOwed st) (accPaid st - accOwed st)%float
            (accBalances st).

(** ** Section 4.2 as the specification words it: two passes

    Step 2 runs over the entries the viewer paid, step 3 over the entries
    paid by someone else; a sum is taken from 0 in the order of the
    entries, and a missing counterparty counts as 0. *)

Definition sum (l : list float) : float := foldl PrimFloat.add 0%float l.

Definition specTotalPaid (viewer : ObjectId) (es : list Expense.t) : float :=
  sum (Expense.amount <$> filter (λ e, Expense.paidBy e = viewer) es).

Definition creditsOf (viewer : ObjectId) (e : Expense.t) : list (string * float) :=
  (λ s, (Split.user s, Split.amount s))
    <$> filter (λ s, Split.user s ≠ viewer ∧ Split.isPaid s = false)
               (Expense.splitBetween e).

Definition debitsOf (viewer : ObjectId) (e : Expense.t) : list (string * float) :=
  (λ s, (Expense.paidBy e, Split.amount s))
    <$> filter (λ s, Split.user s = viewer ∧ Split.isPaid s = false)
               (Expense.splitBetween e).

Definition specCredits (viewer : ObjectId) (es : list Expense.t)
    : list (string * float) :=
  filter (λ e, Expense.paidBy e = viewer) es ≫= creditsOf viewer.

Definition specDebits (viewer : ObjectId) (es : list Expense.t)
    : list (string * float) :=
  filter (λ e, Expense.paidBy e ≠ viewer) es ≫= debitsOf viewer.

Definition specTotalOwed (viewer : ObjectId) (es : list Expense.t) : float :=
  sum (snd <$> specDebits viewer es).

Definition adjust (b : gmap string float) (kd : string * float)
    : gmap string float :=
  <[kd.1 := (default 0 (b !! kd.1) + kd.2)%float]> b.

Definition deduct (b : gmap string float) (kd : string * float)
    : gmap string float :=
  <[kd.1 := (default 0 (b !! kd.1) - kd.2)%float]> b.

Definition specBalances (viewer : ObjectId) (es : list Expense.t)
    : gmap string float :=
  foldl deduct (foldl adjust ∅ (specCredits viewer es)) (specDebits viewer es).

Definition specSummary (viewer : ObjectId) (es : list Expense.t) : Summary :=
  mkSummary (specTotalPaid viewer es) (specTotalOwed viewer es)
            (specTotalPaid viewer es - specTotalOwed viewer es)%float
            (specBalances viewer es).

(** ** Section 4.2 read as one pass in the order of the store

    Each entry, in the order of the list, first adds what step 2 says and
    then what step 3 says; a balance that is missing, zero or NaN counts
    as 0 when it is updated. *)

Inductive Change :=
  | Plus (k : string) (d : float)
  | Minus (k : string) (d : float).

(** The changes that one entry makes to the balances of the viewer. *)
Definition changes (viewer : ObjectId) (e : Expense.t) : list Change :=
  if decide (Expense.paidBy e = viewer)
  then (λ kd, Plus kd.1 kd.2) <$> creditsOf viewer e
  else (λ kd, Minus kd.1 kd.2) <$> debitsOf viewer e.

Definition current (b : gmap string float) (k : string) : float :=
  match b !! k with
  | Some x => if falsy x then 0%float else x
  | None => 0%float
  end.

Definition change (b : gmap string float) (c : Change) : gmap string float :=
  match c with
  | Plus k d => <[k := (current b k + d)%float]> b
  | Minus k d => <[k := (current b k - d)%float]> b
  end.

Definition inStoreOrder (viewer : ObjectId) (es : list Expense.t) : Summary :=
  mkSummary (specTotalPaid viewer es) (specTotalOwed viewer es)
            (specTotalPaid viewer es - specTotalOwed viewer es)%float
            (foldl change ∅ (es ≫= changes viewer)).

(** Every share of every entry is settled. *)
Definition allSettled (es : list Expense.t) : Prop :=
  ∀ e s, e ∈ es → s ∈ Expense.splitBetween e → Split.isPaid s = true.

(** ** Sample data: amounts of 0.1, 0.2 and 0.3, each the nearest binary64
    value *)

Definition tenth : float := 0x1.999999999999ap-4%float.
Definition fifth : float := 0x1.999999999999ap-3%float.
Definition threeTenths : float := 0x1.3333333333333p-2%float.

(** alice paid the coffee and the snack, which bob owes her; bob paid the
    lunch, which alice owes him; alice paid the tea for herself. *)
Definition coffee : Expense.t :=
  Expense.mk tenth alice [Split.mk bob tenth false].

Definition lunch : Expense.t :=
  Expense.mk threeTenths bob [Split.mk alice threeTenths false].

Definition snack : Expense.t :=
  Expense.mk fifth alice [Split.mk bob fifth false].

Definition tea : Expense.t :=
  Expense.mk threeTenths alice [Split.mk alice threeTenths true].

End Double.

(** * Properties *)

(** ** The balances object *)

Lemma addBalance_adjust k d b : addBalance k d b = adjust b (k, d).
Proof.
  unfold addBalance, adjust, initBalance; simpl.
  destruct (b !! k) as [v|] eqn:E; simpl.
  - destruct (Z.eqb_spec v 0) as [->|Hv].
    + by rewrite lookup_insert_eq, insert_insert_eq.
    + by rewrite E.
  - by rewrite lookup_insert_eq, insert_insert_eq.
Qed.

Lemma deduct_adjust b kd : deduct b kd = adjust b (neg kd).
Proof. reflexivity. Qed.

Lemma subBalance_deduct k d b : subBalance k d b = deduct b (k, d).
Proof.
  rewrite deduct_adjust. unfold neg; simpl.
  rewrite <- addBalance_adjust. reflexivity.
Qed.

Lemma amountsAt_app k l1 l2 : amountsAt k (l1 ++ l2) = amountsAt k l1 ++ amountsAt k l2.
Proof. unfold amountsAt. by rewrite filter_app, fmap_app. Qed.

Lemma sumZ_app l1 l2 : sumZ (l1 ++ l2) = sumZ l1 + sumZ l2.
Proof. induction l1 as [|x l1 IH]; simpl; [done|]. rewrite IH. lia. Qed.

Lemma amountsAt_cons k k' d l :
  amountsAt k ((k', d) :: l) =
    if decide (k' = k) then d :: amountsAt k l else amountsAt k l.
Proof.
  unfold amountsAt. rewrite filter_cons. simpl.
  by destruct (decide (k' = k)).
Qed.

Lemma amountsAt_notin k l : k ∉ l.*1 → amountsAt k l = [].
Proof.
  induction l as [|[k' d] l IH]; [done|].
  rewrite fmap_cons, not_elem_of_cons, amountsAt_cons. simpl.
  intros [Hne Hnin]. rewrite decide_False by done. auto.
Qed.

(** The value stored under a key after a run of adjustments: the key is
    present as soon as one adjustment names it, and holds the sum of the
    adjustments made to it. *)
Lemma lookup_foldl_adjust l : ∀ b k,
  foldl adjust b l !! k =
    if decide (k ∈ l.*1)
    then Some (default 0 (b !! k) + sumZ (amountsAt k l))
    else b !! k.
Proof.
  induction l as [|[k' d] l IH]; intros b k.
  - done.
  - cbn [foldl]. rewrite fmap_cons, IH, amountsAt_cons.
    unfold adjust at 1 2. cbn [fst snd].
    destruct (decide (k' = k)) as [->|Hne].
    + rewrite lookup_insert_eq.
      rewrite (decide_True (P := k ∈ k :: l.*1)) by (apply elem_of_cons; by left).
      destruct (decide (k ∈ l.*1)) as [Hin|Hnin]; cbn [default sumZ foldr].
      * unfold sumZ, id. f_equal. lia.
      * rewrite (amountsAt_notin k l Hnin). unfold id. simpl. f_equal. lia.
    + rewrite lookup_insert_ne by done.
      destruct (decide (k ∈ l.*1)) as [Hin|Hnin].
      * rewrite decide_True by (apply elem_of_cons; by right). done.
      * rewrite decide_False; [done|].
        intros [?|?]%elem_of_cons; congruence.
Qed.

(** ** The loops of GET /summary *)

Lemma paid_guard v s :
  negb (equals (Split.user s) v) && negb (Split.isPaid s)
  = bool_decide (unsettledNotFor v s).
Proof.
  unfold equals. repeat case_bool_decide; unfold unsettledNotFor in *;
    destruct (Split.isPaid s) eqn:E; simpl;
    first [done | exfalso; intuition congruence].
Qed.

Lemma owed_guard v e s :
  equals (Split.user s) v && negb (equals (Expense.paidBy e) v)
    && negb (Split.isPaid s)
  = bool_decide (Expense.paidBy e ≠ v ∧ unsettledFor v s).
Proof.
  unfold equals. repeat case_bool_decide; unfold unsettledFor in *;
    destruct (Split.isPaid s) eqn:E; simpl;
    first [done | exfalso; intuition congruence].
Qed.

Lemma foldl_paidSplit v l : ∀ st,
  foldl (paidSplit v) st l =
    mkAcc (accPaid st) (accOwed st)
      (foldl adjust (accBalances st)
         ((λ s, (Split.user s, Split.amount s)) <$> filter (unsettledNotFor v) l)).
Proof.
  induction l as [|s l IH]; intros st.
  - by destruct st.
  - cbn [foldl]. rewrite IH, filter_cons. unfold paidSplit.
    rewrite paid_guard.
    destruct (decide (unsettledNotFor v s)) as [Hs|Hs].
    + rewrite bool_decide_eq_true_2 by done. simpl.
      by rewrite addBalance_adjust.
    + by rewrite bool_decide_eq_false_2 by done.
Qed.

Lemma foldl_owedSplit v e l : ∀ st,
  foldl (owedSplit v e) st l =
    if decide (Expense.paidBy e = v) then st
    else mkAcc (accPaid st)
           (accOwed st + sumZ (Split.amount <$> filter (unsettledFor v) l))
           (foldl adjust (accBalances st)
              (neg <$> ((λ s, (Expense.paidBy e, Split.amount s))
                          <$> filter (unsettledFor v) l))).
Proof.
  induction l as [|s l IH]; intros st.
  - destruct st; simpl. case_decide; [done|]. f_equal. lia.
  - cbn [foldl]. rewrite IH, filter_cons. unfold owedSplit.
    rewrite owed_guard.
    destruct (decide (Expense.paidBy e = v)) as [Hp|Hp].
    + rewrite bool_decide_eq_false_2; [done|]. by intros [? ?].
    + destruct (decide (unsettledFor v s)) as [Hs|Hs].
      * rewrite bool_decide_eq_true_2 by done.
        rewrite !fmap_cons. unfold sumZ. cbn [foldl foldr accPaid accOwed accBalances].
        rewrite subBalance_deduct, deduct_adjust. f_equal. lia.
      * rewrite bool_decide_eq_false_2; [done|]. by intros [? ?].
Qed.

Lemma snd_debitsOf v e :
  (debitsOf v e).*2 = Split.amount <$> filter (unsettledFor v) (Expense.splitBetween e).
Proof. unfold debitsOf. rewrite <- list_fmap_compose. done. Qed.

(** One turn of the outer loop, in closed form. *)
Lemma expenseStep_contribs v st e :
  expenseStep v st e =
    mkAcc (accPaid st + (if decide (Expense.paidBy e = v) then Expense.amount e else 0))
          (accOwed st + (if decide (Expense.paidBy e = v) then 0
                         else sumZ (debitsOf v e).*2))
          (foldl adjust (accBalances st) (contribs v e)).
Proof.
  unfold expenseStep, contribs, equals.
  rewrite foldl_owedSplit, snd_debitsOf.
  destruct (decide (Expense.paidBy e = v)) as [Hp|Hp].
  - rewrite bool_decide_eq_true_2 by done.
    rewrite foldl_paidSplit. simpl. f_equal. lia.
  - rewrite bool_decide_eq_false_2 by done.
    destruct st; simpl. f_equal. lia.
Qed.

Lemma specTotalPaid_cons v e es :
  specTotalPaid v (e :: es) =
    (if decide (Expense.paidBy e = v) then Expense.amount e else 0)
    + specTotalPaid v es.
Proof.
  unfold specTotalPaid. rewrite filter_cons.
  destruct (decide (Expense.paidBy e = v)); simpl; [done|]. lia.
Qed.

Lemma specDebits_cons v e es :
  specDebits v (e :: es) =
    (if decide (Expense.paidBy e = v) then [] else debitsOf v e) ++ specDebits v es.
Proof.
  unfold specDebits. rewrite filter_cons.
  destruct (decide (Expense.paidBy e = v)) as [Hp|Hp].
  - by rewrite decide_False by naive_solver.
  - by rewrite decide_True, bind_cons by done.
Qed.

Lemma specTotalOwed_cons v e es :
  specTotalOwed v (e :: es) =
    (if decide (Expense.paidBy e = v) then 0 else sumZ (debitsOf v e).*2)
    + specTotalOwed v es.
Proof.
  unfold specTotalOwed. rewrite specDebits_cons, fmap_app, sumZ_app.
  by destruct (decide (Expense.paidBy e = v)).
Qed.

(** The whole outer loop, in closed form. *)
Lemma foldl_expenseStep v es : ∀ st,
  foldl (expenseStep v) st es =
    mkAcc (accPaid st + specTotalPaid v es)
          (accOwed st + specTotalOwed v es)
          (foldl adjust (accBalances st) (es ≫= contribs v)).
Proof.
  induction es as [|e es IH]; intros st.
  - destruct st; simpl. unfold specTotalPaid, specTotalOwed; simpl.
    f_equal; lia.
  - cbn [foldl]. rewrite IH, expenseStep_contribs, bind_cons, foldl_app.
    rewrite specTotalPaid_cons, specTotalOwed_cons. simpl. f_equal; lia.
Qed.

Lemma summarize_totalPaid v es : totalPaid (summarize v es) = specTotalPaid v es.
Proof. unfold summarize. by rewrite foldl_expenseStep. Qed.

Lemma summarize_totalOwed v es : totalOwed (summarize v es) = specTotalOwed v es.
Proof. unfold summarize. by rewrite foldl_expenseStep. Qed.

Lemma summarize_balances_contribs v es :
  balances (summarize v es) = foldl adjust ∅ (es ≫= contribs v).
Proof. unfold summarize. by rewrite foldl_expenseStep. Qed.

(** ** The summary and the reference definition *)

(** The scenario of the specification: the payer's and a debtor's view of
    the dinner, and the payer's view once bob's share is settled. *)
Example dinner_for_alice :
  summarize alice [dinner]
  = mkSummary 100 0 100 (<[bob := 50]> (<[carol := 50]> ∅)).
Proof. by vm_compute. Qed.

Example dinner_for_bob :
  summarize bob [dinner] = mkSummary 0 50 (- 50) (<[alice := - 50]> ∅).
Proof. by vm_compute. Qed.

Example dinner_after_bob_paid :
  summarize alice (expenses (payExpense sampleDb dinnerId bob alice).2)
  = mkSummary 100 0 100 (<[carol := 50]> ∅).
Proof. by vm_compute. Qed.

(** ** The loop of GET /summary over binary64 numbers *)

Lemma double_addBalance k d b :
  Double.addBalance k d b = Double.change b (Double.Plus k d).
Proof.
  unfold Double.addBalance, Double.initBalance, Double.change, Double.current.
  destruct (b !! k) as [v|] eqn:E; [destruct (Double.falsy v)|]; cbn zeta.
  - by rewrite lookup_insert_eq, insert_insert_eq.
  - by rewrite E.
  - by rewrite lookup_insert_eq, insert_insert_eq.
Qed.

Lemma double_subBalance k d b :
  Double.subBalance k d b = Double.change b (Double.Minus k d).
Proof.
  unfold Double.subBalance, Double.initBalance, Double.change, Double.current.
  destruct (b !! k) as [v|] eqn:E; [destruct (Double.falsy v)|]; cbn zeta.
  - by rewrite lookup_insert_eq, insert_insert_eq.
  - by rewrite E.
  - by rewrite lookup_insert_eq, insert_insert_eq.
Qed.

Lemma double_paid_guard v s :
  negb (equals (Double.Split.user s) v) && negb (Double.Split.isPaid s)
  = bool_decide (Double.Split.user s ≠ v ∧ Double.Split.isPaid s = false).
Proof.
  unfold equals. repeat case_bool_decide;
    destruct (Double.Split.isPaid s) eqn:E; simpl;
    first [done | exfalso; intuition congruence].
Qed.

Lemma double_owed_guard v e s :
  equals (Double.Split.user s) v && negb (equals (Double.Expense.paidBy e) v)
    && negb (Double.Split.isPaid s)
  = bool_decide (Double.Expense.paidBy e ≠ v
                 ∧ Double.Split.user s = v ∧ Double.Split.isPaid s = false).
Proof.
  unfold equals. repeat case_bool_decide;
    destruct (Double.Split.isPaid s) eqn:E; simpl;
    first [done | exfalso; intuition congruence].
Qed.

Lemma double_foldl_paidSplit v l : ∀ st,
  foldl (Double.paidSplit v) st l =
    Double.mkAcc (Double.accPaid st) (Double.accOwed st)
      (foldl Double.change (Double.accBalances st)
         ((λ kd, Double.Plus kd.1 kd.2)
            <$> ((λ s, (Double.Split.user s, Double.Split.amount s))
                   <$> filter (λ s, Double.Split.user s ≠ v
                                    ∧ Double.Split.isPaid s = false) l))).
Proof.
  induction l as [|s l IH]; intros st.
  - by destruct st.
  - cbn [foldl]. rewrite IH, filter_cons. unfold Double.paidSplit.
    rewrite double_paid_guard. case_bool_decide as Hs.
    + rewrite decide_True by done. rewrite !fmap_cons. cbn [foldl fst snd].
      by rewrite double_addBalance.
    + by rewrite decide_False by done.
Qed.

Lemma double_foldl_owedSplit v e l : ∀ st,
  foldl (Double.owedSplit v e) st l =
    if decide (Double.Expense.paidBy e = v) then st
    else Double.mkAcc (Double.accPaid st)
           (foldl PrimFloat.add (Double.accOwed st)
              (Double.Split.amount
                 <$> filter (λ s, Double.Split.user s = v
                                  ∧ Double.Split.isPaid s = false) l))
           (foldl Double.change (Double.accBalances st)
              ((λ kd, Double.Minus kd.1 kd.2)
                 <$> ((λ s, (Double.Expense.paidBy e, Double.Split.amount s))
                        <$> filter (λ s, Double.Split.user s = v
                                         ∧ Double.Split.isPaid s = false) l))).
Proof.
  induction l as [|s l IH]; intros st.
  - destruct st; simpl. by case_decide.
  - cbn [foldl]. rewrite IH, filter_cons. unfold Double.owedSplit.
    rewrite double_owed_guard.
    destruct (decide (Double.Expense.paidBy e = v)) as [Hp|Hp].
    + rewrite bool_decide_eq_false_2; [done|]. by intros [? ?].
    + case_bool_decide as Hs.
      * rewrite decide_True by tauto. rewrite !fmap_cons.
        cbn [foldl fst snd Double.accPaid Double.accOwed Double.accBalances].
        by rewrite double_subBalance.
      * by rewrite decide_False by tauto.
Qed.

Lemma double_snd_debitsOf v e :
  (Double.debitsOf v e).*2
  = Double.Split.amount
      <$> filter (λ s, Double.Split.user s = v ∧ Double.Split.isPaid s = false)
                 (Double.Expense.splitBetween e).
Proof. unfold Double.debitsOf. by rewrite <- list_fmap_compose. Qed.

(** One turn of the outer loop. *)
Lemma double_expenseStep v st e :
  Double.expenseStep v st e =
    Double.mkAcc
      (foldl PrimFloat.add (Double.accPaid st)
         (if decide (Double.Expense.paidBy e = v)
          then [Double.Expense.amount e] else []))
      (foldl PrimFloat.add (Double.accOwed st)
         (if decide (Double.Expense.paidBy e = v)
          then [] else (Double.debitsOf v e).*2))
      (foldl Double.change (Double.accBalances st) (Double.changes v e)).
Proof.
  unfold Double.expenseStep, Double.changes, equals.
  rewrite double_foldl_owedSplit, double_snd_debitsOf.
  destruct (decide (Double.Expense.paidBy e = v)) as [Hp|Hp].
  - rewrite bool_decide_eq_true_2 by done.
    by rewrite double_foldl_paidSplit.
  - rewrite bool_decide_eq_false_2 by done. by destruct st.
Qed.

(** The whole outer loop: three sums taken side by side, each in the order
    of the entries. *)
Lemma double_foldl_expenseStep v es : ∀ st,
  foldl (Double.expenseStep v) st es =
    Double.mkAcc
      (foldl PrimFloat.add (Double.accPaid st)
         (Double.Expense.amount
            <$> filter (λ e, Double.Expense.paidBy e = v) es))
      (foldl PrimFloat.add (Double.accOwed st) (Double.specDebits v es).*2)
      (foldl Double.change (Double.accBalances st) (es ≫= Double.changes v)).
Proof.
  induction es as [|e es IH]; intros st.
  - by destruct st.
  - cbn [foldl]. rewrite IH, double_expenseStep, bind_cons, foldl_app.
    cbn [Double.accPaid Double.accOwed Double.accBalances].
    unfold Double.specDebits. rewrite !filter_cons.
    destruct (decide (Double.Expense.paidBy e = v)) as [Hp|Hp].
    + by rewrite decide_False by tauto.
    + rewrite decide_True by done.
      by rewrite bind_cons, fmap_app, foldl_app.
Qed.

(** C1 (as the code has it). For every viewer and every list of ledger
    entries, the object computed by GET /summary over binary64 amounts is
    the summary of section 4.2 taken in one pass in the order of the list:
    [totalPaid] is the sum, from 0 and in that order, of [amount] over the
    entries paid by the viewer; [totalOwed] is the sum, in that order, of
    the viewer's unsettled shares in entries paid by someone else;
    [netBalance] is [totalPaid - totalOwed]; and [balances] results from
    the changes of the entries applied in that order, an entry paid by the
    viewer adding each unsettled share of another debtor to
    [balances[debtor]], an entry paid by someone else subtracting each
    unsettled share of the viewer from [balances[payer]], where a balance
    that is missing, zero or NaN counts as 0. *)
Theorem summary_in_store_order (viewer : ObjectId) (es : list Double.Expense.t) :
  Double.summarize viewer es = Double.inStoreOrder viewer es.
Proof.
  unfold Double.summarize, Double.inStoreOrder.
  by rewrite double_foldl_expenseStep.
Qed.

(** C1 as stated fails on binary64 amounts. With the coffee (0.1), the
    lunch (0.3) and the snack (0.2) in this order, the handler leaves
    0.1 - 0.3 + 0.2 in alice's balance with bob, while the two passes of
    section 4.2 give 0.1 + 0.2 - 0.3; and the same three entries paid by
    alice give another [totalPaid] when they are listed in another order. *)
Lemma summary_two_pass_counterexample :
  Double.balances
    (Double.summarize alice [Double.coffee; Double.lunch; Double.snack]) !! bob
  = Some 0x1p-55%float
  ∧ Double.balances
      (Double.specSummary alice [Double.coffee; Double.lunch; Double.snack]) !! bob
    = Some 0x1p-54%float
  ∧ Double.summarize alice [Double.coffee; Double.lunch; Double.snack]
    ≠ Double.specSummary alice [Double.coffee; Double.lunch; Double.snack]
  ∧ [Double.coffee; Double.snack; Double.tea]
    ≡ₚ [Double.tea; Double.snack; Double.coffee]
  ∧ Double.totalPaid
      (Double.summarize alice [Double.coffee; Double.snack; Double.tea])
    = 0x1.3333333333334p-1%float
  ∧ Double.totalPaid
      (Double.summarize alice [Double.tea; Double.snack; Double.coffee])
    = 0x1.3333333333333p-1%float.
Proof.
  split_and!.
  - by vm_compute.
  - by vm_compute.
  - intros H.
    apply (f_equal (λ s, Double.balances s !! bob)) in H.
    vm_compute in H. discriminate H.
  - apply Permutation_rev.
  - by vm_compute.
  - by vm_compute.
Qed.

(** ** Settled entries *)

Lemma double_filter_settled v (l : list Double.Split.t) :
  (∀ s, s ∈ l → Double.Split.isPaid s = true) →
  filter (λ s, Double.Split.user s ≠ v ∧ Double.Split.isPaid s = false) l = []
  ∧ filter (λ s, Double.Split.user s = v ∧ Double.Split.isPaid s = false) l = [].
Proof.
  induction l as [|s l IH]; intros Hl; [done|].
  destruct IH as [IH1 IH2].
  { intros s' Hs'. apply Hl, elem_of_cons. by right. }
  assert (Double.Split.isPaid s = true) as Hs by (apply Hl, elem_of_cons; by left).
  rewrite !filter_cons_False; [done| |].
  - intros [_ ?]; congruence.
  - intros [_ ?]; congruence.
Qed.

Lemma double_settled_changes v es :
  Double.allSettled es →
  Double.specDebits v es = [] ∧ es ≫= Double.changes v = [].
Proof.
  induction es as [|e es IH]; intros Hall; [done|].
  destruct IH as [IH1 IH2].
  { intros e' s He' Hs. apply (Hall e' s); [apply elem_of_cons; by right|done]. }
  destruct (double_filter_settled v (Double.Expense.splitBetween e)) as [F1 F2].
  { intros s Hs. apply (Hall e s); [apply elem_of_cons; by left|done]. }
  split.
  - unfold Double.specDebits in *. rewrite filter_cons.
    case_decide; [|done].
    rewrite bind_cons, IH1. unfold Double.debitsOf. by rewrite F2.
  - rewrite bind_cons, IH2.
    unfold Double.changes, Double.creditsOf, Double.debitsOf. rewrite F1, F2.
    by case_decide.
Qed.

(** C2 (as the code has it). When every share of every entry is settled,
    the summary of any viewer has [totalOwed = 0] and an empty [balances]
    object; [totalPaid] is still the sum, in the order of the entries, of
    the amounts of the entries the viewer paid, and [netBalance] is
    [totalPaid - 0]. *)
Theorem settled_summary (viewer : ObjectId) (es : list Double.Expense.t) :
  Double.allSettled es →
  Double.totalOwed (Double.summarize viewer es) = 0%float
  ∧ Double.balances (Double.summarize viewer es) = ∅
  ∧ Double.totalPaid (Double.summarize viewer es)
    = Double.sum (Double.Expense.amount
                    <$> filter (λ e, Double.Expense.paidBy e = viewer) es)
  ∧ Double.netBalance (Double.summarize viewer es)
    = (Double.totalPaid (Double.summarize viewer es) - 0)%float.
Proof.
  intros Hall. destruct (double_settled_changes viewer es Hall) as [Hd Hc].
  unfold Double.summarize. rewrite double_foldl_expenseStep, Hd, Hc.
  by split_and!.
Qed.

Lemma tea_allSettled : Double.allSettled [Double.tea].
Proof.
  intros e s He Hs. apply list_elem_of_singleton in He as ->.
  by apply list_elem_of_singleton in Hs as ->.
Qed.

Lemma settled_summary_witness :
  Double.totalOwed (Double.summarize alice [Double.tea]) = 0%float
  ∧ Double.balances (Double.summarize alice [Double.tea]) = ∅
  ∧ Double.totalPaid (Double.summarize alice [Double.tea])
    = Double.sum (Double.Expense.amount
                    <$> filter (λ e, Double.Expense.paidBy e = alice) [Double.tea])
  ∧ Double.netBalance (Double.summarize alice [Double.tea])
    = (Double.totalPaid (Double.summarize alice [Double.tea]) - 0)%float.
Proof. apply (settled_summary alice [Double.tea] tea_allSettled). Defined.

Lemma dinnerSettled_allSettled : allSettled [dinnerSettled].
Proof.
  intros e s He Hs. apply list_elem_of_singleton in He as ->.
  apply elem_of_cons in Hs as [->|Hs]; [done|].
  by apply list_elem_of_singleton in Hs as ->.
Qed.

(** C2 as stated fails: with every share settled the payer's [totalPaid]
    is 100, not 0. *)
Lemma settled_totalPaid_counterexample :
  allSettled [dinnerSettled]
  ∧ totalPaid (summarize alice [dinnerSettled]) = 100
  ∧ ¬ (totalOwed (summarize alice [dinnerSettled]) = 0
       ∧ totalPaid (summarize alice [dinnerSettled]) = 0
       ∧ balances (summarize alice [dinnerSettled]) = ∅).
Proof.
  split_and!; [apply dinnerSettled_allSettled|done|].
  intros (_ & H & _). vm_compute in H. discriminate H.
Qed.

(** ** Symmetry of balances *)

Lemma lookup_balances v k es :
  balances (summarize v es) !! k =
    if decide (k ∈ (es ≫= contribs v).*1)
    then Some (sumZ (amountsAt k (es ≫= contribs v)))
    else None.
Proof.
  rewrite summarize_balances_contribs, lookup_foldl_adjust, lookup_empty.
  by case_decide.
Qed.

(** A key of the balances names a counterparty of an unsettled debt. *)
Lemma key_in_contribs v k e :
  k ∈ (contribs v e).*1 → owes k v e ∨ owes v k e.
Proof.
  unfold contribs, creditsOf, debitsOf, owes.
  destruct (decide (Expense.paidBy e = v)) as [Hp|Hp].
  - rewrite <- list_fmap_compose.
    intros (s & -> & [[Hu Hs] Hin]%list_elem_of_filter)%list_elem_of_fmap.
    left. split; [done|]. by exists s.
  - rewrite <- !list_fmap_compose.
    intros (s & -> & [Hs Hin]%list_elem_of_filter)%list_elem_of_fmap.
    right. split; [done|]. by exists s.
Qed.

Lemma quiet_entries v k es :
  (∀ e, e ∈ es → ¬ owes k v e ∧ ¬ owes v k e) →
  k ∉ (es ≫= contribs v).*1.
Proof.
  intros Hq (kd & -> & Hin)%list_elem_of_fmap.
  apply list_elem_of_bind in Hin as (e & Hkd & He).
  destruct (Hq e He) as [H1 H2].
  destruct (key_in_contribs v kd.1 e); [|done..].
  by apply list_elem_of_fmap_2.
Qed.

Lemma filter_none {A} (P : A → Prop) `{∀ x, Decision (P x)} (l : list A) :
  (∀ x, x ∈ l → ¬ P x) → filter P l = [].
Proof.
  induction l as [|a l IH]; intros Hl; [done|].
  rewrite filter_cons_False by (apply Hl, elem_of_cons; by left).
  apply IH. intros x Hx. apply Hl, elem_of_cons. by right.
Qed.

(** With distinct debtors, a debtor's unsettled share is the only one. *)
Lemma unique_unsettled d l s :
  NoDup (Split.user <$> l) → s ∈ l → unsettledFor d s →
  filter (unsettledFor d) l = [s].
Proof.
  induction l as [|a l IH]; intros Hnd Hin Hs.
  - by apply not_elem_of_nil in Hin.
  - rewrite fmap_cons in Hnd. apply NoDup_cons in Hnd as [Hna Hnd].
    destruct Hs as [Hu Hp].
    apply elem_of_cons in Hin as [->|Hin].
    + rewrite filter_cons_True by done. f_equal.
      apply filter_none. intros x Hx [Hxu _]. apply Hna.
      rewrite Hu, <- Hxu. by apply list_elem_of_fmap_2.
    + rewrite filter_cons_False; [by apply IH|].
      intros [Hau _]. apply Hna.
      rewrite Hau, <- Hu. by apply list_elem_of_fmap_2.
Qed.

Lemma amountsAt_fmap k (g : Split.t → string) (l : list Split.t) :
  amountsAt k ((λ s, (g s, Split.amount s)) <$> l)
  = Split.amount <$> filter (λ s, g s = k) l.
Proof.
  induction l as [|a l IH]; [done|].
  rewrite fmap_cons, amountsAt_cons, filter_cons, IH.
  by destruct (decide (g a = k)).
Qed.

(** What the entry of the debt contributes to either summary. *)
Lemma debt_entry_contribs a b e s :
  a ≠ b → Expense.paidBy e = a → uniqueDebtors e →
  s ∈ Expense.splitBetween e → unsettledFor b s →
  amountsAt b (contribs a e) = [Split.amount s]
  ∧ amountsAt a (contribs b e) = [- Split.amount s].
Proof.
  intros Hab Hp Hnd Hin Hs.
  pose proof (unique_unsettled b _ s Hnd Hin Hs) as Hf.
  unfold contribs. rewrite decide_True by done.
  rewrite decide_False by congruence. split.
  - unfold creditsOf. rewrite amountsAt_fmap, list_filter_filter.
    erewrite list_filter_iff; [by rewrite Hf|].
    intros x. unfold unsettledFor, unsettledNotFor. split.
    + by intros (? & _ & ?).
    + intros [Hx ?]. split_and!; [done| |done]. congruence.
  - unfold debitsOf. rewrite Hf, Hp, !fmap_cons.
    unfold neg. cbn [fst snd fmap list_fmap].
    by rewrite amountsAt_cons, decide_True.
Qed.

(** C8 (as the code has it). For distinct users A and B: when A paid an
    entry whose debtors are pairwise distinct and which holds an unsettled
    share of amount X for B, then over every entry list in which no other
    entry carries an unsettled debt between A and B (in particular the list
    of that entry alone) the summary of A has [balances[B] = X] and the
    summary of B has [balances[A] = -X]. *)
Theorem balance_symmetry (A B : ObjectId) (X : Z) (e : Expense.t) (s : Split.t)
    (es1 es2 : list Expense.t) :
  A ≠ B →
  Expense.paidBy e = A →
  uniqueDebtors e →
  s ∈ Expense.splitBetween e →
  Split.user s = B → Split.isPaid s = false → Split.amount s = X →
  (∀ e', e' ∈ es1 ++ es2 → ¬ owes B A e' ∧ ¬ owes A B e') →
  balances (summarize A (es1 ++ e :: es2)) !! B = Some X
  ∧ balances (summarize B (es1 ++ e :: es2)) !! A = Some (- X).
Proof.
  intros Hab Hp Hnd Hin Hu Hpaid HX Hq.
  assert (unsettledFor B s) as Hs by done.
  destruct (debt_entry_contribs A B e s Hab Hp Hnd Hin Hs) as [HA HB].
  assert (∀ v k, (v = A ∧ k = B) ∨ (v = B ∧ k = A) →
            ∀ es, es ⊆ es1 ++ es2 → amountsAt k (es ≫= contribs v) = []) as Hquiet.
  { intros v k Hvk es Hes. apply amountsAt_notin, quiet_entries.
    intros e' He'. destruct (Hq e' (Hes _ He')) as [? ?].
    by destruct Hvk as [[-> ->]|[-> ->]]. }
  assert (es1 ⊆ es1 ++ es2) as H1 by (intros x ?; apply elem_of_app; by left).
  assert (es2 ⊆ es1 ++ es2) as H2 by (intros x ?; apply elem_of_app; by right).
  rewrite !lookup_balances, !bind_app, !bind_cons, !amountsAt_app, !sumZ_app.
  rewrite HA, HB.
  rewrite !(Hquiet A B) by (done || by left).
  rewrite !(Hquiet B A) by (done || by right).
  rewrite HX. split.
  - rewrite decide_True; [simpl; f_equal; lia|].
    rewrite !fmap_app, !elem_of_app. right; left.
    apply (list_elem_of_fmap_2 fst _ (B, X)).
    unfold contribs, creditsOf. rewrite decide_True by done.
    apply (list_elem_of_fmap_2' _ _ s); [|by rewrite Hu, HX].
    apply list_elem_of_filter. split; [|done]. split; congruence.
  - rewrite decide_True; [simpl; f_equal; lia|].
    rewrite !fmap_app, !elem_of_app. right; left.
    apply (list_elem_of_fmap_2 fst _ (A, - X)).
    unfold contribs, debitsOf. rewrite decide_False by congruence.
    apply (list_elem_of_fmap_2 neg _ (A, X)).
    apply (list_elem_of_fmap_2' _ _ s); [|by rewrite Hp, HX].
    by apply list_elem_of_filter.
Qed.

Lemma balance_symmetry_witness :
  balances (summarize alice ([] ++ dinner :: [])) !! bob = Some 50
  ∧ balances (summarize bob ([] ++ dinner :: [])) !! alice = Some (- 50).
Proof.
  apply (balance_symmetry alice bob 50 dinner (Split.mk bob 50 false) [] []).
  - done.
  - reflexivity.
  - unfold uniqueDebtors. apply (bool_decide_unpack _). vm_compute. exact I.
  - apply elem_of_cons. by left.
  - reflexivity.
  - reflexivity.
  - reflexivity.
  - intros e' He'. by apply not_elem_of_nil in He'.
Defined.

(** C8 as stated fails when the debtor is named in two shares of the entry:
    alice paid an entry holding an unsettled share of 50 for bob, and the
    balances are 80 and -80. *)
Lemma balance_symmetry_counterexample :
  alice ≠ bob
  ∧ Expense.paidBy taxi = alice
  ∧ Split.mk bob 50 false ∈ Expense.splitBetween taxi
  ∧ balances (summarize alice [taxi]) !! bob = Some 80
  ∧ balances (summarize bob [taxi]) !! alice = Some (- 80)
  ∧ ¬ (balances (summarize alice [taxi]) !! bob = Some 50
       ∧ balances (summarize bob [taxi]) !! alice = Some (- 50)).
Proof.
  split_and!.
  - done.
  - reflexivity.
  - apply elem_of_cons. by left.
  - by vm_compute.
  - by vm_compute.
  - intros [H _]. vm_compute in H. discriminate H.
Qed.

(** ** The summary without a scope *)

Lemma find_all (l : list Expense.t) : find (mkQuery None None) l = l.
Proof.
  unfold find. induction l as [|e l IH]; [done|].
  rewrite filter_cons_True by done. by rewrite IH.
Qed.

(** C10. When neither a community nor an event identifier is supplied, GET
    /summary does not answer with the missing-scope error of GET /: it
    answers 200 with the viewer's summary over every entry of the store. *)
Theorem summary_without_scope (db : Db) (viewer : ObjectId)
    (communityId eventId : option string) :
  truthy communityId = false → truthy eventId = false →
  getSummary db viewer communityId eventId
    = mkResponse 200 (SummaryDoc (summarize viewer (expenses db)))
  ∧ outcome (getSummary db viewer communityId eventId) = Success
  ∧ outcome (getExpenses db communityId eventId) = InvalidScope.
Proof.
  intros Hc He.
  unfold getSummary, getExpenses, summaryQuery, truthyValue.
  rewrite Hc, He, find_all. done.
Qed.

Lemma summary_without_scope_witness :
  getSummary sampleDb bob None (Some ""%string)
    = mkResponse 200 (SummaryDoc (summarize bob (expenses sampleDb)))
  ∧ outcome (getSummary sampleDb bob None (Some ""%string)) = Success
  ∧ outcome (getExpenses sampleDb None (Some ""%string)) = InvalidScope.
Proof. apply (summary_without_scope sampleDb bob None (Some ""%string)); reflexivity. Defined.

(** ** GET / : listing by scope *)

#[global] Instance newestFirst_total : Total newestFirst.
Proof. intros a b. unfold newestFirst. lia. Qed.

#[global] Instance newestFirst_trans : Transitive newestFirst.
Proof. intros a b c. unfold newestFirst. lia. Qed.

Lemma find_event ev (l : list Expense.t) :
  find (mkQuery (Some ev) None) l = filter (inEvent ev) l.
Proof.
  unfold find. apply list_filter_iff. intros e.
  unfold matches, inEvent; simpl.
  rewrite andb_true_r. apply bool_decide_spec.
Qed.

Lemma find_community c (l : list Expense.t) :
  find (mkQuery None (Some c)) l = filter (inCommunity c) l.
Proof.
  unfold find. apply list_filter_iff. intros e.
  unfold matches, inCommunity, equals; simpl. apply bool_decide_spec.
Qed.

Lemma truthyValue_Some s : s ≠ ""%string → truthyValue (Some s) = Some s.
Proof.
  intros Hs. unfold truthyValue, truthy.
  by rewrite bool_decide_eq_false_2.
Qed.

Lemma truthyValue_falsy p : truthy p = false → truthyValue p = None.
Proof. unfold truthyValue. by intros ->. Qed.

Lemma castObjectId_truthy s id :
  castObjectId s = Some id → truthyValue (Some s) = Some s.
Proof.
  unfold castObjectId. intros Hs. apply truthyValue_Some. by intros ->.
Qed.

(** C6 (as the code has it). GET / answers with the missing-scope error
    when neither identifier is supplied. Otherwise the event identifier
    selects if it is supplied, and the community identifier if not. When
    the selecting identifier is an ObjectId the answer holds exactly the
    entries of that event, respectively of that community: it is a
    rearrangement of the matching entries of the store, in descending
    order of creation time. When the selecting identifier is not an
    ObjectId the answer is 500 (a string of 12 bytes, which some versions
    of the driver read as the bytes of an identifier, is left out). *)
Theorem list_by_scope (db : Db) (communityId eventId : option string) :
  (truthy eventId = false → truthy communityId = false →
     outcome (getExpenses db communityId eventId) = InvalidScope)
  ∧ (∀ s ev, eventId = Some s → castObjectId s = Some ev →
       ∃ l, getExpenses db communityId eventId = mkResponse 200 (ExpenseList l)
            ∧ l ≡ₚ filter (inEvent ev) (expenses db)
            ∧ (∀ e, e ∈ l → e ∈ expenses db ∧ inEvent ev e)
            ∧ StronglySorted newestFirst l)
  ∧ (∀ s c, truthy eventId = false → communityId = Some s →
       castObjectId s = Some c →
       ∃ l, getExpenses db communityId eventId = mkResponse 200 (ExpenseList l)
            ∧ l ≡ₚ filter (inCommunity c) (expenses db)
            ∧ (∀ e, e ∈ l → e ∈ expenses db ∧ inCommunity c e)
            ∧ StronglySorted newestFirst l)
  ∧ (∀ s, eventId = Some s → s ≠ ""%string → castObjectId s = None →
       String.length s ≠ 12%nat →
       outcome (getExpenses db communityId eventId) = InternalError)
  ∧ (∀ s, truthy eventId = false → communityId = Some s → s ≠ ""%string →
       castObjectId s = None → String.length s ≠ 12%nat →
       outcome (getExpenses db communityId eventId) = InternalError).
Proof.
  unfold getExpenses. split_and!.
  - intros He Hc. by rewrite !truthyValue_falsy.
  - intros s ev -> Hev. rewrite (castObjectId_truthy s ev Hev), Hev.
    eexists. split; [done|]. rewrite find_event.
    assert (sortNewestFirst (filter (inEvent ev) (expenses db))
              ≡ₚ filter (inEvent ev) (expenses db)) as Hperm
      by apply merge_sort_Permutation.
    split_and!; [done| |apply StronglySorted_merge_sort; apply _].
    intros e He. rewrite Hperm in He.
    apply list_elem_of_filter in He. tauto.
  - intros s c He -> Hc.
    rewrite truthyValue_falsy, (castObjectId_truthy s c Hc), Hc by done.
    eexists. split; [done|]. rewrite find_community.
    assert (sortNewestFirst (filter (inCommunity c) (expenses db))
              ≡ₚ filter (inCommunity c) (expenses db)) as Hperm
      by apply merge_sort_Permutation.
    split_and!; [done| |apply StronglySorted_merge_sort; apply _].
    intros e He'. rewrite Hperm in He'.
    apply list_elem_of_filter in He'. tauto.
  - intros s -> Hs Hc _. by rewrite truthyValue_Some, Hc.
  - intros s He -> Hs Hc _. by rewrite truthyValue_falsy, truthyValue_Some, Hc.
Qed.

Lemma list_by_scope_witness :
  outcome (getExpenses sampleDb None None) = InvalidScope
  ∧ (∃ l, getExpenses sampleDb (Some hostel) (Some trip)
            = mkResponse 200 (ExpenseList l)
          ∧ l ≡ₚ filter (inEvent trip) (expenses sampleDb)
          ∧ (∀ e, e ∈ l → e ∈ expenses sampleDb ∧ inEvent trip e)
          ∧ StronglySorted newestFirst l)
  ∧ (∃ l, getExpenses sampleDb (Some hostel) None
            = mkResponse 200 (ExpenseList l)
          ∧ l ≡ₚ filter (inCommunity hostel) (expenses sampleDb)
          ∧ (∀ e, e ∈ l → e ∈ expenses sampleDb ∧ inCommunity hostel e)
          ∧ StronglySorted newestFirst l)
  ∧ outcome (getExpenses sampleDb None (Some "abc")) = InternalError.
Proof.
  split; [|split; [|split]].
  - apply (proj1 (list_by_scope sampleDb None None)); reflexivity.
  - apply (proj1 (proj2 (list_by_scope sampleDb (Some hostel) (Some trip)))
             trip trip).
    + reflexivity.
    + reflexivity.
  - apply (proj1 (proj2 (proj2 (list_by_scope sampleDb (Some hostel) None)))
             hostel hostel).
    + reflexivity.
    + reflexivity.
    + reflexivity.
  - apply (proj1 (proj2 (proj2 (proj2 (list_by_scope sampleDb None (Some "abc")))))
             "abc"%string).
    + reflexivity.
    + discriminate.
    + reflexivity.
    + discriminate.
Defined.

(** C6 as stated fails for an identifier that is not an ObjectId: an event
    identifier is supplied, and the answer is neither the missing-scope
    error nor a list of entries. *)
Lemma list_by_scope_counterexample :
  truthy (Some "abc"%string) = true
  ∧ getExpenses sampleDb None (Some "abc") = mkResponse 500 Thrown
  ∧ outcome (getExpenses sampleDb None (Some "abc")) ≠ InvalidScope
  ∧ ∀ l, getExpenses sampleDb None (Some "abc") ≠ mkResponse 200 (ExpenseList l).
Proof. split_and!; [done..|]. intros l. by vm_compute. Qed.

(** ** Lookups in the store *)

Lemma list_find_insert_here {A} (P : A → Prop) `{∀ x, Decision (P x)}
    (l : list A) i x y :
  list_find P l = Some (i, x) → P y → list_find P (<[i:=y]> l) = Some (i, y).
Proof.
  intros (Hi & _ & Hlt)%list_find_Some Hy. apply list_find_Some. split_and!.
  - apply list_lookup_insert_eq. by eapply lookup_lt_Some.
  - done.
  - intros j z Hj Hji. rewrite list_lookup_insert_ne in Hj by lia.
    by eapply Hlt.
Qed.

Lemma list_find_insert_other {A} (Q : A → Prop) `{∀ x, Decision (Q x)}
    (l : list A) : ∀ i x y,
  l !! i = Some x → ¬ Q x → ¬ Q y → list_find Q (<[i:=y]> l) = list_find Q l.
Proof.
  induction l as [|a l IH]; intros i x y Hi Hx Hy; [done|].
  destruct i as [|i]; simpl in *.
  - simplify_eq. by rewrite !decide_False.
  - destruct (decide (Q a)); [done|]. by erewrite IH.
Qed.

Lemma findById_None id (l : list Expense.t) :
  findById id l = None ↔ ∀ e, e ∈ l → Expense._id e ≠ id.
Proof.
  unfold findById. rewrite fmap_None, list_find_None, Forall_forall. done.
Qed.

Lemma findById_Some id (l : list Expense.t) e :
  findById id l = Some e →
  ∃ n, list_find (λ x, Expense._id x = id) l = Some (n, e)
       ∧ l !! n = Some e ∧ Expense._id e = id.
Proof.
  unfold findById. intros ([n e'] & Hf & ->)%fmap_Some. exists n.
  pose proof Hf as (? & ? & _)%list_find_Some. done.
Qed.

Lemma findById_elem_of id (l : list Expense.t) e :
  findById id l = Some e → e ∈ l ∧ Expense._id e = id.
Proof.
  intros (n & _ & Hn & Hid)%findById_Some. split; [|done].
  by eapply list_elem_of_lookup_2.
Qed.

(** With unique identifiers, [findById] finds every stored document. *)
Lemma findById_unique (l : list Expense.t) e :
  NoDup (Expense._id <$> l) → e ∈ l → findById (Expense._id e) l = Some e.
Proof.
  intros Hnd Hin.
  destruct (list_find_elem_of (λ x, Expense._id x = Expense._id e) l e Hin eq_refl)
    as [[n e'] Hf].
  unfold findById. rewrite Hf. simpl. f_equal.
  apply list_find_Some in Hf as (Hn & Hid & _).
  apply list_elem_of_lookup in Hin as [m Hm].
  assert (n = m) as ->; [|congruence].
  eapply NoDup_lookup; [done| |].
  - by rewrite list_lookup_fmap, Hn.
  - rewrite list_lookup_fmap, Hm. simpl. by rewrite Hid.
Qed.

Lemma findById_insert_here id (l : list Expense.t) n e e' :
  list_find (λ x, Expense._id x = id) l = Some (n, e) →
  Expense._id e' = id →
  findById id (<[n:=e']> l) = Some e'.
Proof.
  intros Hf Hid. unfold findById.
  by rewrite (list_find_insert_here _ l n e e' Hf Hid).
Qed.

Lemma findById_insert_other id id' (l : list Expense.t) n e e' :
  l !! n = Some e → Expense._id e = id → Expense._id e' = id → id' ≠ id →
  findById id' (<[n:=e']> l) = findById id' l.
Proof.
  intros Hn He He' Hne. unfold findById.
  by rewrite (list_find_insert_other _ l n e e' Hn) by congruence.
Qed.

(** ** PUT /:expenseId/pay/:userId *)

Lemma withSplits_id e : withSplits e (Expense.splitBetween e) = e.
Proof. by destruct e. Qed.

Lemma withSplits_withSplits e l1 l2 :
  withSplits (withSplits e l1) l2 = withSplits e l2.
Proof. done. Qed.

Lemma markPaid_idemp s : markPaid (markPaid s) = markPaid s.
Proof. done. Qed.

(** The handler once the entry and the share are found. *)
Lemma payExpense_found db expenseId id userId requester n e i s :
  castObjectId expenseId = Some id →
  list_find (λ x, Expense._id x = id) (expenses db) = Some (n, e) →
  list_find (λ x, Split.user x = userId) (Expense.splitBetween e) = Some (i, s) →
  payExpense db expenseId userId requester =
    if negb (equals (Expense.paidBy e) requester)
       && negb (equals (Split.user s) requester)
    then (mkResponse 403 (Message "Permission denied"), db)
    else (mkResponse 200 (Message "Marked as paid"),
          mkDb (<[n := withSplits e (<[i := markPaid s]> (Expense.splitBetween e))]>
                  (expenses db))
               (events db) (communities db)).
Proof.
  intros Hc Hn Hi. unfold payExpense, findById.
  rewrite Hc, Hn. simpl. rewrite Hi.
  destruct (negb _ && negb _); [done|].
  unfold updateOne. simpl.
  pose proof Hn as (_ & -> & _)%list_find_Some.
  by rewrite Hn.
Qed.

Lemma authorised_guard (payer debtor requester : ObjectId) :
  negb (equals payer requester) && negb (equals debtor requester) = false
  ↔ requester = payer ∨ requester = debtor.
Proof.
  unfold equals. repeat case_bool_decide; simpl; split; intros;
    first [done | by left | by right | exfalso; intuition congruence].
Qed.

Lemma shareOf_find userId e i s :
  shareOf userId e i s ↔
  list_find (λ x, Split.user x = userId) (Expense.splitBetween e) = Some (i, s).
Proof. unfold shareOf. by rewrite list_find_Some. Qed.

(** C4 (as the code has it). PUT /:expenseId/pay/:userId answers 500 when
    the entry identifier is not an ObjectId (a string of 12 bytes, which
    some versions of the driver read as the bytes of an identifier, is left
    out). When it is one, the request is answered 404 if no entry has the identifier or if the entry has no
    share of the debtor; otherwise 403 unless the requester is the payer of
    the entry or the debtor of the share; otherwise the [isPaid] flag of
    that share becomes true, the share keeps its debtor and its amount,
    and nothing else changes in the store. *)
Theorem mark_settled_outcome (db : Db) (expenseId userId : string)
    (requester : ObjectId) :
  let r := payExpense db expenseId userId requester in
  (castObjectId expenseId = None → String.length expenseId ≠ 12%nat →
     outcome r.1 = InternalError ∧ r.2 = db)
  ∧ (∀ id, castObjectId expenseId = Some id →
       ((∀ e, e ∈ expenses db → Expense._id e ≠ id) →
          outcome r.1 = NotFound ∧ r.2 = db)
       ∧ (∀ e, findById id (expenses db) = Some e →
            ((∀ s, s ∈ Expense.splitBetween e → Split.user s ≠ userId) →
               outcome r.1 = NotFound ∧ r.2 = db)
            ∧ (∀ i s, shareOf userId e i s →
                 (requester ≠ Expense.paidBy e → requester ≠ Split.user s →
                    outcome r.1 = PermissionDenied ∧ r.2 = db)
                 ∧ (requester = Expense.paidBy e ∨ requester = Split.user s →
                    outcome r.1 = Success
                    ∧ (∃ e' s',
                         findById id (expenses r.2) = Some e'
                         ∧ Expense.splitBetween e' !! i = Some s'
                         ∧ Split.isPaid s' = true
                         ∧ Split.user s' = Split.user s
                         ∧ Split.amount s' = Split.amount s
                         ∧ (∀ j, j ≠ i →
                              Expense.splitBetween e' !! j
                              = Expense.splitBetween e !! j)
                         ∧ withSplits e' (Expense.splitBetween e) = e)
                    ∧ (∀ id', id' ≠ id →
                         findById id' (expenses r.2) = findById id' (expenses db))
                    ∧ length (expenses r.2) = length (expenses db)
                    ∧ events r.2 = events db
                    ∧ communities r.2 = communities db)))).
Proof.
  intros r. split.
  { intros Hc _. subst r. unfold payExpense. by rewrite Hc. }
  intros id Hc. split.
  - intros Hnone. subst r. unfold payExpense.
    by rewrite Hc, (proj2 (findById_None _ _) Hnone).
  - intros e He. pose proof He as (n & Hn & Hl & Hid)%findById_Some. split.
    + intros Hnone. subst r. unfold payExpense. rewrite Hc, He.
      assert (list_find (λ x, Split.user x = userId) (Expense.splitBetween e) = None)
        as -> by (by apply list_find_None, Forall_forall).
      done.
    + intros i s Hs. pose proof Hs as (Hi & _). apply shareOf_find in Hs.
      subst r.
      rewrite (payExpense_found db expenseId id userId requester n e i s Hc Hn Hs).
      split.
      * intros H1 H2.
        destruct (negb _ && negb _) eqn:Hg; [done|].
        apply authorised_guard in Hg as [?|?]; congruence.
      * intros Hauth%authorised_guard. rewrite Hauth. cbn [fst snd expenses].
        split_and!.
        -- done.
        -- eexists _, _. split; [by apply (findById_insert_here _ _ _ e)|].
           cbn [withSplits Expense.splitBetween].
           split_and!.
           ++ apply list_lookup_insert_eq. by eapply lookup_lt_Some.
           ++ done.
           ++ done.
           ++ done.
           ++ intros j Hj. by apply list_lookup_insert_ne.
           ++ by destruct e.
        -- intros id' Hne. by apply (findById_insert_other id id' _ n e).
        -- apply length_insert.
        -- done.
        -- done.
Qed.

Lemma mark_settled_outcome_witness :
  (outcome (payExpense sampleDb "abc" bob bob).1 = InternalError
   ∧ (payExpense sampleDb "abc" bob bob).2 = sampleDb)
  ∧ (outcome (payExpense sampleDb dinnerId carol bob).1 = PermissionDenied
     ∧ (payExpense sampleDb dinnerId carol bob).2 = sampleDb)
  ∧ (outcome (payExpense sampleDb dinnerId bob bob).1 = Success
     ∧ (∃ e' s',
          findById dinnerId (expenses (payExpense sampleDb dinnerId bob bob).2)
          = Some e'
          ∧ Expense.splitBetween e' !! 0%nat = Some s'
          ∧ Split.isPaid s' = true
          ∧ Split.user s' = Split.user (Split.mk bob 50 false)
          ∧ Split.amount s' = Split.amount (Split.mk bob 50 false)
          ∧ (∀ j, j ≠ 0%nat →
               Expense.splitBetween e' !! j = Expense.splitBetween dinner !! j)
          ∧ withSplits e' (Expense.splitBetween dinner) = dinner)
     ∧ (∀ id', id' ≠ dinnerId →
          findById id' (expenses (payExpense sampleDb dinnerId bob bob).2)
          = findById id' (expenses sampleDb))
     ∧ length (expenses (payExpense sampleDb dinnerId bob bob).2)
       = length (expenses sampleDb)
     ∧ events (payExpense sampleDb dinnerId bob bob).2 = events sampleDb
     ∧ communities (payExpense sampleDb dinnerId bob bob).2
       = communities sampleDb).
Proof.
  assert (findById dinnerId (expenses sampleDb) = Some dinner) as Hf
    by reflexivity.
  assert (shareOf carol dinner 1 (Split.mk carol 50 false)) as Hcarol
    by (by apply shareOf_find).
  assert (shareOf bob dinner 0 (Split.mk bob 50 false)) as Hbob
    by (by apply shareOf_find).
  split; [|split].
  - apply (proj1 (mark_settled_outcome sampleDb "abc" bob bob)).
    + reflexivity.
    + discriminate.
  - apply (proj1 (proj2 (proj2 (proj2 (mark_settled_outcome sampleDb dinnerId
                                         carol bob)
                                  dinnerId eq_refl)
                           dinner Hf) 1%nat (Split.mk carol 50 false) Hcarol));
      done.
  - apply (proj2 (proj2 (proj2 (proj2 (mark_settled_outcome sampleDb dinnerId
                                         bob bob)
                                  dinnerId eq_refl)
                           dinner Hf) 0%nat (Split.mk bob 50 false) Hbob)).
    by right.
Defined.

(** C4 as stated fails for an entry identifier that is not an ObjectId: no
    entry has the identifier, and the answer is 500, not 404. *)
Lemma mark_settled_malformed_id_counterexample :
  (∀ e, e ∈ expenses sampleDb → Expense._id e ≠ "abc"%string)
  ∧ payExpense sampleDb "abc" bob bob = (mkResponse 500 Thrown, sampleDb)
  ∧ outcome (payExpense sampleDb "abc" bob bob).1 ≠ NotFound.
Proof.
  split_and!; [|done..].
  intros e He. apply list_elem_of_singleton in He as ->. discriminate.
Qed.

(** C3. Marking a share as paid twice: when the entry exists, the debtor
    has a share in it and the requester is the payer or the debtor, the
    first call succeeds, the second call succeeds as well, and it leaves
    the store as the first call left it. *)
Theorem mark_settled_idempotent (db : Db) (expenseId userId : string)
    (requester : ObjectId) (id : ObjectId) (e : Expense.t) :
  castObjectId expenseId = Some id →
  findById id (expenses db) = Some e →
  (∃ s, s ∈ Expense.splitBetween e ∧ Split.user s = userId) →
  requester = Expense.paidBy e ∨ requester = userId →
  let r1 := payExpense db expenseId userId requester in
  let r2 := payExpense r1.2 expenseId userId requester in
  outcome r1.1 = Success ∧ outcome r2.1 = Success ∧ r2.2 = r1.2.
Proof.
  intros Hc (n & Hn & Hl & Hid)%findById_Some (s0 & Hs0 & Hu0) Hauth.
  destruct (list_find_elem_of (λ x, Split.user x = userId) _ s0 Hs0 Hu0)
    as [[i s] Hs].
  pose proof Hs as (Hi & Hu & _)%list_find_Some.
  assert (negb (equals (Expense.paidBy e) requester)
          && negb (equals (Split.user s) requester) = false) as Hg.
  { apply authorised_guard. by rewrite Hu. }
  intros r1 r2. subst r2 r1.
  rewrite (payExpense_found db expenseId id userId requester n e i s Hc Hn Hs), Hg.
  cbn [fst snd].
  set (e' := withSplits e (<[i := markPaid s]> (Expense.splitBetween e))).
  assert (list_find (λ x, Expense._id x = id) (<[n:=e']> (expenses db))
          = Some (n, e')) as Hn'.
  { by apply (list_find_insert_here _ _ n e). }
  assert (list_find (λ x, Split.user x = userId) (Expense.splitBetween e')
          = Some (i, markPaid s)) as Hs'.
  { by apply (list_find_insert_here _ _ i s). }
  rewrite (payExpense_found
             (mkDb (<[n:=e']> (expenses db)) (events db) (communities db))
             expenseId id userId requester n e' i (markPaid s) Hc Hn' Hs').
  cbn [expenses Expense.paidBy Split.user markPaid e' withSplits].
  rewrite Hg. split_and!; [done..|].
  cbn [snd]. f_equal. rewrite list_insert_insert_eq. f_equal.
  subst e'. unfold withSplits at 1. cbn [Expense.splitBetween withSplits].
  rewrite list_insert_insert_eq. by destruct e.
Qed.

Lemma mark_settled_idempotent_witness :
  outcome (payExpense sampleDb dinnerId bob bob).1 = Success
  ∧ outcome (payExpense (payExpense sampleDb dinnerId bob bob).2 dinnerId bob bob).1
    = Success
  ∧ (payExpense (payExpense sampleDb dinnerId bob bob).2 dinnerId bob bob).2
    = (payExpense sampleDb dinnerId bob bob).2.
Proof.
  apply (mark_settled_idempotent sampleDb dinnerId bob bob dinnerId dinner).
  - reflexivity.
  - reflexivity.
  - exists (Split.mk bob 50 false). split; [|reflexivity].
    apply elem_of_cons. by left.
  - by right.
Defined.

(** ** DELETE /:expenseId *)

Lemma pullExpense_other id id' x (evs : list Event.t) :
  id' ≠ id →
  findEventById id' (pullExpense id x evs) = findEventById id' evs.
Proof.
  intros Hne. unfold pullExpense, findEventById.
  destruct (list_find _ evs) as [[i ev0]|] eqn:Hf; [|done].
  pose proof Hf as (Hi & Hid & _)%list_find_Some.
  by erewrite list_find_insert_other; [|exact Hi|simpl; congruence..].
Qed.

Lemma deleteOne_found (l : list Expense.t) n e :
  list_find (λ x, Expense._id x = Expense._id e) l = Some (n, e) →
  deleteOne e l = delete n l ∧ l ≡ₚ e :: deleteOne e l.
Proof.
  intros Hf. unfold deleteOne. rewrite Hf. split; [done|].
  apply delete_Permutation. by apply list_find_Some in Hf as (? & _).
Qed.

Lemma pullExpense_lookup id x (evs : list Event.t) doc :
  findEventById id evs = Some doc →
  findEventById id (pullExpense id x evs)
  = Some (Event.mk (Event._id doc) (Event.community doc)
                   (filter (λ y, y ≠ x) (Event.expenses doc))).
Proof.
  unfold findEventById, pullExpense.
  destruct (list_find _ evs) as [[i doc0]|] eqn:Hf; [|done].
  intros [= ->]. pose proof Hf as (_ & Hid & _)%list_find_Some.
  by erewrite list_find_insert_here; [|exact Hf|exact Hid].
Qed.

Lemma pullExpense_missing id x (evs : list Event.t) :
  findEventById id evs = None → pullExpense id x evs = evs.
Proof.
  unfold findEventById, pullExpense.
  by destruct (list_find _ evs) as [[i doc0]|].
Qed.

Lemma pullExpense_length id x (evs : list Event.t) :
  length (pullExpense id x evs) = length evs.
Proof.
  unfold pullExpense. destruct (list_find _ evs) as [[i doc0]|]; [|done].
  apply length_insert.
Qed.

(** C5 (as the code has it). DELETE /:expenseId answers 500 when the entry
    identifier is not an ObjectId (a string of 12 bytes left out, as for
    the settlement). When it is one, the request is answered
    404 for an unknown identifier and 403 for every requester other than
    the payer of the entry, a debtor of one of its shares included, leaving
    the store as it was. For the payer it first takes the identifier out of
    the entry list of the associated event, which keeps its other
    identifiers in their order, and then removes the entry, the first one
    with that identifier; no other event and no other entry changes. *)
Theorem delete_outcome (db : Db) (expenseId : string) (requester : ObjectId) :
  let r := deleteExpense db expenseId requester in
  (castObjectId expenseId = None → String.length expenseId ≠ 12%nat →
     outcome r.1 = InternalError ∧ r.2 = db)
  ∧ (∀ id, castObjectId expenseId = Some id →
       ((∀ e, e ∈ expenses db → Expense._id e ≠ id) →
          outcome r.1 = NotFound ∧ r.2 = db)
       ∧ (∀ e, findById id (expenses db) = Some e →
            (requester ≠ Expense.paidBy e →
               outcome r.1 = PermissionDenied ∧ r.2 = db)
            ∧ (requester = Expense.paidBy e →
               outcome r.1 = Success
               ∧ (∃ db1,
                    expenses db1 = expenses db
                    ∧ communities db1 = communities db
                    ∧ length (events db1) = length (events db)
                    ∧ (∀ ev doc, Expense.event e = Some ev →
                         findEventById ev (events db) = Some doc →
                         findEventById ev (events db1)
                         = Some (Event.mk (Event._id doc) (Event.community doc)
                                   (filter (λ x, x ≠ id) (Event.expenses doc))))
                    ∧ (∀ ev, Expense.event e = Some ev →
                         findEventById ev (events db) = None →
                         events db1 = events db)
                    ∧ (Expense.event e = None → events db1 = events db)
                    ∧ (∀ ev, Expense.event e ≠ Some ev →
                         findEventById ev (events db1)
                         = findEventById ev (events db))
                    ∧ events r.2 = events db1
                    ∧ communities r.2 = communities db1
                    ∧ ∃ l1 l2,
                        expenses db1 = l1 ++ e :: l2
                        ∧ expenses r.2 = l1 ++ l2
                        ∧ ∀ x, x ∈ l1 → Expense._id x ≠ id)
               ∧ expenses db ≡ₚ e :: expenses r.2))).
Proof.
  intros r. split.
  { intros Hc _. subst r. unfold deleteExpense. by rewrite Hc. }
  intros id Hc. split.
  - intros Hnone. subst r. unfold deleteExpense.
    by rewrite Hc, (proj2 (findById_None _ _) Hnone).
  - intros e He. pose proof He as (n & Hn & Hl & Hid)%findById_Some.
    subst r. unfold deleteExpense, equals. rewrite Hc, He. split.
    + intros Hne. by rewrite bool_decide_eq_false_2 by congruence.
    + intros ->. rewrite bool_decide_eq_true_2 by done. cbn [negb fst snd].
      rewrite <- Hid in Hn.
      destruct (deleteOne_found (expenses db) n e Hn) as [Hdel Hperm].
      assert (∃ l1 l2, expenses db = l1 ++ e :: l2
                       ∧ deleteOne e (expenses db) = l1 ++ l2
                       ∧ ∀ x, x ∈ l1 → Expense._id x ≠ id) as Hsplit.
      { exists (take n (expenses db)), (drop (S n) (expenses db)). split_and!.
        - by rewrite take_drop_middle.
        - rewrite Hdel. apply delete_take_drop.
        - intros x (j & Hj)%list_elem_of_lookup_1.
          assert (j < n)%nat as Hlt.
          { apply lookup_lt_Some in Hj. rewrite length_take in Hj. lia. }
          rewrite lookup_take_lt in Hj by done.
          apply list_find_Some in Hn as (_ & _ & Hfirst).
          rewrite <- Hid. by apply (Hfirst j). }
      split_and!.
      * done.
      * destruct (Expense.event e) as [ev|] eqn:Hev.
        -- exists (mkDb (expenses db) (pullExpense ev id (events db))
                     (communities db)).
           rewrite Hid. cbn [expenses events communities]. split_and!.
           ++ done.
           ++ done.
           ++ apply pullExpense_length.
           ++ intros ev' doc [= <-]. apply pullExpense_lookup.
           ++ intros ev' [= <-]. apply pullExpense_missing.
           ++ done.
           ++ intros ev' Hne. apply pullExpense_other. congruence.
           ++ done.
           ++ done.
           ++ done.
        -- exists db. split_and!; [done..|]. by destruct db.
      * by destruct (Expense.event e).
Qed.

Lemma delete_outcome_witness :
  (outcome (deleteExpense sampleDb "abc" alice).1 = InternalError
   ∧ (deleteExpense sampleDb "abc" alice).2 = sampleDb)
  ∧ (outcome (deleteExpense sampleDb dinnerId bob).1 = PermissionDenied
     ∧ (deleteExpense sampleDb dinnerId bob).2 = sampleDb)
  ∧ outcome (deleteExpense sampleDb dinnerId alice).1 = Success
  ∧ expenses sampleDb ≡ₚ dinner :: expenses (deleteExpense sampleDb dinnerId alice).2.
Proof.
  split; [|split; [|split]].
  - apply (proj1 (delete_outcome sampleDb "abc" alice)).
    + reflexivity.
    + discriminate.
  - apply (proj1 (proj2 (proj2 (delete_outcome sampleDb dinnerId bob)
                           dinnerId eq_refl)
                    dinner eq_refl)).
    done.
  - apply (proj2 (proj2 (proj2 (delete_outcome sampleDb dinnerId alice)
                           dinnerId eq_refl)
                    dinner eq_refl)).
    reflexivity.
  - apply (proj2 (proj2 (proj2 (delete_outcome sampleDb dinnerId alice)
                           dinnerId eq_refl)
                    dinner eq_refl)).
    reflexivity.
Defined.

(** C5 as stated fails for an entry identifier that is not an ObjectId: the
    identifier is unknown, and the answer is 500, not 404. *)
Lemma delete_malformed_id_counterexample :
  (∀ e, e ∈ expenses sampleDb → Expense._id e ≠ "abc"%string)
  ∧ deleteExpense sampleDb "abc" alice = (mkResponse 500 Thrown, sampleDb)
  ∧ outcome (deleteExpense sampleDb "abc" alice).1 ≠ NotFound.
Proof.
  split_and!; [|done..].
  intros e He. apply list_elem_of_singleton in He as ->. discriminate.
Qed.

(** ** POST /create *)

Lemma validationResult_nil b : validationResult b = [] → acceptable b.
Proof.
  unfold validationResult, check, acceptable. intros Hv.
  apply app_eq_nil in Hv as [_ Hv].
  apply app_eq_nil in Hv as [Ha Hv].
  apply app_eq_nil in Hv as [Hc Hm].
  split_and!.
  - destruct (amount b) as [a|]; [|done].
    destruct (decide (0 ≤ a)) as [Hpos|Hneg]; [by exists a|].
    by rewrite bool_decide_eq_false_2 in Ha.
  - destruct (decide (default ""%string (category b) ∈ categories)) as [Hin|Hin];
      [|by rewrite bool_decide_eq_false_2 in Hc].
    destruct (category b) as [c|]; [by exists c|].
    exfalso. revert Hin. apply (bool_decide_eq_false_1 _). by vm_compute.
  - destruct (isMongoId (default ""%string (communityId b))) eqn:Hid; [|done].
    destruct (communityId b) as [id|]; [by exists id|done].
Qed.

(** The handler once validation and the membership check have passed. *)
Lemma createExpense_Success db requester b file newId now :
  outcome (createExpense db requester b file newId now).1 = Success →
  acceptable b
  ∧ ∃ cid c event,
       castObjectId (default ""%string (communityId b)) = Some cid
       ∧ findCommunityById cid (communities db) = Some c
       ∧ castEvent (eventId b) = Some event
       ∧ createExpense db requester b file newId now =
           let expense :=
             Expense.mk newId (trim (default ""%string (title b)))
               (default 0 (amount b)) (default ""%string (category b))
               requester (splitBetween b) event
               (Community._id c) file (notes b) now in
           (mkResponse 201 (ExpenseDoc expense),
            mkDb (insertOne expense (expenses db))
                 (match truthyValue (eventId b), event with
                  | Some _, Some ev => pushExpense ev newId (events db)
                  | _, _ => events db
                  end)
                 (communities db)).
Proof.
  unfold createExpense.
  destruct (validationResult b) eqn:Hv; [|done].
  destruct (castObjectId _) as [cid|]; [|done].
  destruct (findCommunityById _ _) as [c|] eqn:Hc; [|done].
  destruct (negb _); [done|].
  destruct (castEvent _) as [event|]; [|done].
  destruct (splitsThrow b); [done|].
  intros _. split; [by apply validationResult_nil|]. by exists cid, c, event.
Qed.

Lemma createExpense_failure db requester b file newId now :
  outcome (createExpense db requester b file newId now).1 ≠ Success →
  (createExpense db requester b file newId now).2 = db.
Proof.
  unfold createExpense.
  destruct (validationResult b) eqn:Hv; [|done].
  destruct (castObjectId _) as [cid|]; [|done].
  destruct (findCommunityById _ _) as [c|]; [|done].
  destruct (negb _); [done|].
  destruct (castEvent _); [|done]. by destruct (splitsThrow b).
Qed.

(** C7 (as the code has it). POST /create answers with a validation error
    unless the amount is a number greater than or equal to zero, the
    category is one of the five allowed ones and a well-formed community
    identifier is supplied; a failed request leaves the store unchanged. An
    accepted request appends one entry, whose amount is the requested one
    and is not negative, whose category is allowed and whose community
    exists: no entry with a negative amount is persisted. *)
Theorem create_validation (db : Db) (requester : ObjectId) (b : CreateBody)
    (file : option string) (newId : ObjectId) (now : Z) :
  let r := createExpense db requester b file newId now in
  (¬ acceptable b → outcome r.1 = ValidationError ∧ r.2 = db)
  ∧ (outcome r.1 ≠ Success → r.2 = db)
  ∧ (outcome r.1 = Success →
       ∃ e, r.1 = mkResponse 201 (ExpenseDoc e)
            ∧ expenses r.2 = expenses db ++ [e]
            ∧ amount b = Some (Expense.amount e)
            ∧ 0 ≤ Expense.amount e
            ∧ Expense.category e ∈ categories
            ∧ ∃ c, c ∈ communities db ∧ Community._id c = Expense.community e)
  ∧ ((∀ e, e ∈ expenses db → 0 ≤ Expense.amount e) →
       ∀ e, e ∈ expenses r.2 → 0 ≤ Expense.amount e).
Proof.
  intros r.
  assert (outcome r.1 = Success →
       ∃ e, r.1 = mkResponse 201 (ExpenseDoc e)
            ∧ expenses r.2 = expenses db ++ [e]
            ∧ amount b = Some (Expense.amount e)
            ∧ 0 ≤ Expense.amount e
            ∧ Expense.category e ∈ categories
            ∧ ∃ c, c ∈ communities db ∧ Community._id c = Expense.community e)
    as Hok.
  { intros Hs. subst r.
    destruct (createExpense_Success _ _ _ _ _ _ Hs)
      as (((a & Ha & Hpos) & (cat & Hcat & Hin) & _)
          & cid & c & event & _ & Hc & _ & ->).
    eexists. split; [done|]. cbn [fst snd expenses insertOne].
    split; [done|]. rewrite Ha, Hcat. cbn [Expense.amount Expense.category default].
    split_and!; [done..|]. exists c. split; [|done].
    unfold findCommunityById in Hc.
    apply fmap_Some in Hc as ([i c'] & (Hi & _)%list_find_Some & ->).
    by eapply list_elem_of_lookup_2. }
  split_and!.
  - intros Hbad. subst r. unfold createExpense.
    destruct (validationResult b) eqn:Hv; [|done].
    by apply validationResult_nil in Hv.
  - apply createExpense_failure.
  - exact Hok.
  - intros Hdb e He.
    destruct (decide (outcome r.1 = Success)) as [Hs|Hs].
    + destruct (Hok Hs) as (e' & _ & Hexp & _ & Hpos & _).
      rewrite Hexp in He. apply elem_of_app in He as [He|He]; [by apply Hdb|].
      by apply list_elem_of_singleton in He as ->.
    + subst r. rewrite createExpense_failure in He by done. by apply Hdb.
Qed.

Lemma create_validation_witness :
  outcome (createExpense campus alice negativeBody None dinnerId 1000).1
    = ValidationError
  ∧ (createExpense campus alice negativeBody None dinnerId 1000).2 = campus.
Proof.
  apply (create_validation campus alice negativeBody None dinnerId 1000).
  intros ((a & Ha & Hpos) & _). injection Ha as <-. lia.
Defined.

(** C7 as stated fails at amount zero: the request is accepted and the
    entry of amount 0 is stored. *)
Lemma create_zero_amount_counterexample :
  amount waterBody = Some 0
  ∧ ¬ (0 < 0)
  ∧ outcome (createExpense campus alice waterBody None dinnerId 1000).1 = Success
  ∧ outcome (createExpense campus alice waterBody None dinnerId 1000).1
    ≠ ValidationError
  ∧ Expense.amount
      <$> expenses (createExpense campus alice waterBody None dinnerId 1000).2
    = [0].
Proof. split_and!; [done|lia|by vm_compute..]. Qed.

(** ** Debtors of the stored entries *)

Lemma markPaid_users (l : list Split.t) i s :
  l !! i = Some s → Split.user <$> <[i := markPaid s]> l = Split.user <$> l.
Proof.
  intros Hi. rewrite list_fmap_insert. apply list_insert_id.
  by rewrite list_lookup_fmap, Hi.
Qed.

Lemma createExpense_splits db requester b file newId now :
  outcome (createExpense db requester b file newId now).1 = Success →
  ∃ e, expenses (createExpense db requester b file newId now).2 = expenses db ++ [e]
       ∧ Expense.splitBetween e = splitBetween b.
Proof.
  intros Hs.
  destruct (createExpense_Success _ _ _ _ _ _ Hs)
    as (_ & cid & c & event & _ & _ & _ & ->).
  by eexists.
Qed.

Lemma payExpense_uniqueDebtors db expenseId userId requester :
  Forall uniqueDebtors (expenses db) →
  Forall uniqueDebtors (expenses (payExpense db expenseId userId requester).2).
Proof.
  intros Hdb. unfold payExpense.
  destruct (castObjectId expenseId) as [id|]; [|done].
  destruct (findById id (expenses db)) as [e|] eqn:He; [|done].
  destruct (list_find _ (Expense.splitBetween e)) as [[i s]|] eqn:Hs; [|done].
  destruct (negb _ && negb _); [done|].
  cbn [snd expenses]. unfold updateOne.
  destruct (list_find _ (expenses db)) as [[n e0]|]; [|done].
  apply Forall_insert; [done|].
  unfold uniqueDebtors. cbn [withSplits Expense.splitBetween].
  apply list_find_Some in Hs as (Hi & _).
  rewrite (markPaid_users _ i s Hi).
  apply findById_elem_of in He as [He _].
  by apply (proj1 (Forall_forall _ _) Hdb e).
Qed.

Lemma deleteExpense_uniqueDebtors db expenseId requester :
  Forall uniqueDebtors (expenses db) →
  Forall uniqueDebtors (expenses (deleteExpense db expenseId requester).2).
Proof.
  intros Hdb. unfold deleteExpense.
  destruct (castObjectId expenseId) as [id|]; [|done].
  destruct (findById id (expenses db)) as [e|]; [|done].
  destruct (negb _); [done|].
  assert (∀ l, Forall uniqueDebtors l → Forall uniqueDebtors (deleteOne e l)) as Hdel.
  { intros l Hl. unfold deleteOne.
    destruct (list_find _ l) as [[n e0]|]; [|done]. by apply Forall_delete. }
  destruct (Expense.event e); by apply Hdel.
Qed.

Lemma step_uniqueDebtors db op :
  distinctDebtors op →
  Forall uniqueDebtors (expenses db) →
  Forall uniqueDebtors (expenses (step db op).2).
Proof.
  destruct op as [requester b file newId now
                 |expenseId userId requester
                 |expenseId requester]; simpl; intros Hop Hdb.
  - destruct (decide (outcome (createExpense db requester b file newId now).1
                      = Success)) as [Hs|Hs].
    + destruct (createExpense_splits _ _ _ _ _ _ Hs) as (e & -> & Hsplits).
      apply Forall_app. split; [done|]. apply Forall_singleton.
      unfold uniqueDebtors. by rewrite Hsplits.
    + by rewrite createExpense_failure.
  - by apply payExpense_uniqueDebtors.
  - by apply deleteExpense_uniqueDebtors.
Qed.

(** C9 (as the code has it). POST /create stores the shares of the request
    as they are, without comparing their debtors, and neither marking a
    share as paid nor deleting an entry changes the debtors of a stored
    entry. Hence, when every creation request names each debtor at most
    once, each debtor appears in at most one share of every stored entry
    after any sequence of operations. *)
Theorem unique_debtors_preserved (db : Db) (ops : list Op) :
  Forall distinctDebtors ops →
  Forall uniqueDebtors (expenses db) →
  Forall uniqueDebtors (expenses (run db ops))
  ∧ (∀ requester b file newId now,
       outcome (createExpense db requester b file newId now).1 = Success →
       ∃ e, expenses (createExpense db requester b file newId now).2
              = expenses db ++ [e]
            ∧ Expense.splitBetween e = splitBetween b).
Proof.
  intros Hops Hdb. split.
  - revert db Hdb. unfold run.
    induction Hops as [|op ops Hop _ IH]; intros db Hdb; [done|].
    cbn [foldl]. apply IH. by apply step_uniqueDebtors.
  - intros requester b file newId now. apply createExpense_splits.
Qed.

Lemma unique_debtors_preserved_witness :
  Forall uniqueDebtors
    (expenses (run campus [Create alice dinnerBody None dinnerId 1000;
                           Pay dinnerId bob bob;
                           Delete dinnerId carol]))
  ∧ (∀ requester b file newId now,
       outcome (createExpense campus requester b file newId now).1 = Success →
       ∃ e, expenses (createExpense campus requester b file newId now).2
              = expenses campus ++ [e]
            ∧ Expense.splitBetween e = splitBetween b).
Proof.
  apply (unique_debtors_preserved campus).
  - apply Forall_cons. split.
    + simpl. apply (bool_decide_unpack _). by vm_compute.
    + repeat (apply Forall_cons; split; [exact I|]). apply Forall_nil_2.
  - apply Forall_nil_2.
Defined.

(** C9 as stated fails: a creation request with two shares for bob is
    accepted and stored as it is. *)
Lemma duplicate_debtor_counterexample :
  outcome (createExpense campus alice taxiBody None taxiId 2000).1 = Success
  ∧ expenses (createExpense campus alice taxiBody None taxiId 2000).2 = [taxi]
  ∧ Split.user <$> Expense.splitBetween taxi = [bob; bob]
  ∧ ¬ uniqueDebtors taxi.
Proof.
  split_and!; [by vm_compute..|].
  unfold uniqueDebtors. apply (bool_decide_eq_false_1 _). by vm_compute.
Qed.

(** * Further properties of the expense routes *)

(** ** Balances of two users against each other *)

Lemma sumZ_opp (l : list Z) : sumZ (Z.opp <$> l) = - sumZ l.
Proof.
  induction l as [|x l IH]; [done|].
  rewrite fmap_cons. unfold sumZ in *. cbn [foldr]. rewrite IH. lia.
Qed.

Lemma amountsAt_creditsOf a b e :
  a ≠ b →
  amountsAt b (creditsOf a e)
  = Split.amount <$> filter (unsettledFor b) (Expense.splitBetween e).
Proof.
  intros Hab. unfold creditsOf. rewrite amountsAt_fmap, list_filter_filter.
  f_equal. apply list_filter_iff. intros x.
  unfold unsettledFor, unsettledNotFor. split.
  - by intros (? & _ & ?).
  - intros [Hx ?]. split_and!; [done| |done]. congruence.
Qed.

Lemma amountsAt_debitsOf v k e :
  amountsAt k (neg <$> debitsOf v e)
  = if decide (Expense.paidBy e = k)
    then Z.opp <$> (Split.amount <$> filter (unsettledFor v) (Expense.splitBetween e))
    else [].
Proof.
  unfold debitsOf.
  induction (filter (unsettledFor v) (Expense.splitBetween e)) as [|s l IH].
  - by case_decide.
  - rewrite !fmap_cons. unfold neg at 1. cbn [fst snd].
    rewrite amountsAt_cons, IH. by case_decide.
Qed.

(** One entry weighs the same, with opposite signs, in the two summaries. *)
Lemma contribs_opposite a b e :
  a ≠ b →
  sumZ (amountsAt b (contribs a e)) = - sumZ (amountsAt a (contribs b e)).
Proof.
  intros Hab. unfold contribs.
  destruct (decide (Expense.paidBy e = a)) as [Ha|Ha];
    destruct (decide (Expense.paidBy e = b)) as [Hb|Hb].
  - congruence.
  - rewrite amountsAt_creditsOf, amountsAt_debitsOf, decide_True by done.
    rewrite sumZ_opp. lia.
  - rewrite (amountsAt_creditsOf b a), amountsAt_debitsOf, decide_True by done.
    by rewrite sumZ_opp.
  - by rewrite !amountsAt_debitsOf, !decide_False by done.
Qed.

Lemma contribs_key_iff v k e :
  v ≠ k → k ∈ (contribs v e).*1 ↔ owes k v e ∨ owes v k e.
Proof.
  intros Hvk. split; [apply key_in_contribs|].
  unfold contribs, owes. intros [[Hp (s & Hin & Hs)]|[Hp (s & Hin & Hs)]].
  - rewrite decide_True by done. unfold creditsOf.
    apply (list_elem_of_fmap_2' _ _ (k, Split.amount s)); [|done].
    apply (list_elem_of_fmap_2' _ _ s); [|by destruct Hs as [-> _]].
    apply list_elem_of_filter. split; [|done].
    destruct Hs as [Hu ?]. split; [congruence|done].
  - rewrite decide_False by congruence. unfold debitsOf.
    apply (list_elem_of_fmap_2' _ _ (k, - Split.amount s)); [|done].
    apply (list_elem_of_fmap_2' _ _ (k, Split.amount s)); [|done].
    apply (list_elem_of_fmap_2' _ _ s); [|by rewrite Hp].
    by apply list_elem_of_filter.
Qed.

Lemma bind_key_iff v k es :
  v ≠ k →
  k ∈ (es ≫= contribs v).*1 ↔ ∃ e, e ∈ es ∧ (owes k v e ∨ owes v k e).
Proof.
  intros Hvk. split.
  - intros (kd & -> & Hin)%list_elem_of_fmap.
    apply list_elem_of_bind in Hin as (e & Hkd & He). exists e. split; [done|].
    apply key_in_contribs. by apply list_elem_of_fmap_2.
  - intros (e & He & Ho). apply (contribs_key_iff v k e Hvk) in Ho.
    apply list_elem_of_fmap in Ho as (kd & -> & Hkd).
    apply list_elem_of_fmap_2, list_elem_of_bind. by exists e.
Qed.

Lemma bind_opposite a b es :
  a ≠ b →
  sumZ (amountsAt b (es ≫= contribs a)) = - sumZ (amountsAt a (es ≫= contribs b)).
Proof.
  intros Hab. induction es as [|e es IH]; [done|].
  rewrite !bind_cons, !amountsAt_app, !sumZ_app, IH, (contribs_opposite a b e Hab).
  lia.
Qed.

(** X1. For two distinct users and any list of entries, what the summary of
    the first holds under the second is the opposite of what the summary of
    the second holds under the first; one has an entry for the other exactly
    when the other has one. *)
Theorem balances_antisymmetric (a b : ObjectId) (es : list Expense.t) :
  a ≠ b →
  balances (summarize a es) !! b = Z.opp <$> (balances (summarize b es) !! a).
Proof.
  intros Hab. rewrite !lookup_balances.
  assert (b ∈ (es ≫= contribs a).*1 ↔ a ∈ (es ≫= contribs b).*1) as Hkeys.
  { rewrite (bind_key_iff a b), (bind_key_iff b a) by done.
    split; intros (e & He & Ho); exists e; tauto. }
  destruct (decide (b ∈ (es ≫= contribs a).*1)) as [Hin|Hnin].
  - rewrite decide_True by (by apply Hkeys). simpl. f_equal.
    rewrite (bind_opposite a b es Hab). lia.
  - rewrite decide_False; [done|]. by rewrite <- Hkeys.
Qed.

Lemma balances_antisymmetric_witness :
  balances (summarize alice [dinner; taxi]) !! bob
  = Z.opp <$> (balances (summarize bob [dinner; taxi]) !! alice).
Proof. apply (balances_antisymmetric alice bob [dinner; taxi]). done. Defined.

(** ** The effect of a settlement *)

(** The two ways PUT /:expenseId/pay/:userId ends. *)
Lemma payExpense_cases db expenseId userId requester :
  (outcome (payExpense db expenseId userId requester).1 ≠ Success
   ∧ (payExpense db expenseId userId requester).2 = db)
  ∨ ∃ id n e i s,
      castObjectId expenseId = Some id
      ∧ list_find (λ x, Expense._id x = id) (expenses db) = Some (n, e)
      ∧ list_find (λ x, Split.user x = userId) (Expense.splitBetween e) = Some (i, s)
      ∧ (requester = Expense.paidBy e ∨ requester = Split.user s)
      ∧ payExpense db expenseId userId requester
        = (mkResponse 200 (Message "Marked as paid"),
           mkDb (<[n := withSplits e (<[i := markPaid s]> (Expense.splitBetween e))]>
                   (expenses db))
                (events db) (communities db)).
Proof.
  destruct (castObjectId expenseId) as [id|] eqn:Hc;
    [|left; unfold payExpense; by rewrite Hc].
  destruct (list_find (λ x, Expense._id x = id) (expenses db)) as [[n e]|] eqn:Hn;
    [|left; unfold payExpense, findById; by rewrite Hc, Hn].
  destruct (list_find (λ x, Split.user x = userId) (Expense.splitBetween e))
    as [[i s]|] eqn:Hs;
    [|left; unfold payExpense, findById; rewrite Hc, Hn; simpl; by rewrite Hs].
  rewrite (payExpense_found db expenseId id userId requester n e i s Hc Hn Hs).
  destruct (negb _ && negb _) eqn:Hg; [by left|].
  right. exists id, n, e, i, s. by apply authorised_guard in Hg.
Qed.

Lemma sumZ_insert (f : Expense.t → Z) (l : list Expense.t) : ∀ n e e',
  l !! n = Some e →
  sumZ (f <$> <[n := e']> l) = sumZ (f <$> l) - f e + f e'.
Proof.
  induction l as [|a l IH]; intros n e e' Hn; [done|].
  destruct n as [|n]; simpl in Hn.
  - simplify_eq. change (<[0%nat:=e']> (e :: l)) with (e' :: l).
    rewrite !fmap_cons. unfold sumZ. cbn [foldr]. lia.
  - change (<[S n:=e']> (a :: l)) with (a :: <[n:=e']> l).
    rewrite !fmap_cons. unfold sumZ in *. cbn [foldr].
    rewrite (IH n e e' Hn). lia.
Qed.

Lemma specTotalPaid_sum v l :
  specTotalPaid v l
  = sumZ ((λ e, if decide (Expense.paidBy e = v) then Expense.amount e else 0) <$> l).
Proof.
  induction l as [|e l IH]; [done|].
  rewrite specTotalPaid_cons, fmap_cons, IH. done.
Qed.

Lemma specTotalOwed_sum v l :
  specTotalOwed v l
  = sumZ ((λ e, if decide (Expense.paidBy e = v) then 0
                else sumZ (debitsOf v e).*2) <$> l).
Proof.
  induction l as [|e l IH]; [done|].
  rewrite specTotalOwed_cons, fmap_cons, IH. done.
Qed.

(** X2. Marking a share as paid never changes [totalPaid]: for every
    viewer, the total computed over the store after the request, accepted
    or not, is the total computed before it. *)
Theorem settlement_keeps_totalPaid (db : Db) (expenseId userId : string)
    (requester viewer : ObjectId) :
  totalPaid (summarize viewer
               (expenses (payExpense db expenseId userId requester).2))
  = totalPaid (summarize viewer (expenses db)).
Proof.
  destruct (payExpense_cases db expenseId userId requester)
    as [[_ ->]|(id & n & e & i & s & _ & Hn & _ & _ & ->)]; [done|].
  cbn [snd expenses]. rewrite !summarize_totalPaid, !specTotalPaid_sum.
  apply list_find_Some in Hn as (Hn & _).
  rewrite (sumZ_insert _ _ n e _ Hn). cbn [withSplits Expense.paidBy Expense.amount].
  lia.
Qed.

(** What is left to pay in a list of shares once one of them is settled. *)
Lemma unsettled_after_markPaid v (l : list Split.t) : ∀ i s,
  l !! i = Some s →
  sumZ (Split.amount <$> filter (unsettledFor v) (<[i := markPaid s]> l))
  = sumZ (Split.amount <$> filter (unsettledFor v) l)
    - (if decide (unsettledFor v s) then Split.amount s else 0).
Proof.
  assert (∀ s, ¬ unsettledFor v (markPaid s)) as Hpaid by (by intros s [_ ?]).
  induction l as [|a l IH]; intros i s Hi; [done|].
  destruct i as [|i]; simpl in Hi.
  - simplify_eq. change (<[0%nat:=markPaid s]> (s :: l)) with (markPaid s :: l).
    rewrite (filter_cons_False _ (markPaid s)) by apply Hpaid.
    rewrite filter_cons. destruct (decide (unsettledFor v s)).
    + rewrite fmap_cons. unfold sumZ. cbn [foldr]. lia.
    + lia.
  - change (<[S i:=markPaid s]> (a :: l)) with (a :: <[i:=markPaid s]> l).
    rewrite !filter_cons.
    destruct (decide (unsettledFor v a)).
    + rewrite !fmap_cons. unfold sumZ in *. cbn [foldr].
      rewrite (IH i s Hi). lia.
    + by apply IH.
Qed.

(** X3. An accepted settlement changes the [totalOwed] of nobody but the
    debtor of the share, and of the debtor only when the share was not yet
    settled and the debtor is not the payer of the entry: for every other
    viewer, and in every other case, [totalOwed] stays as it was. *)
Theorem settlement_totalOwed (db : Db) (expenseId userId : string)
    (requester viewer : ObjectId) (id : ObjectId) (e : Expense.t)
    (i : nat) (s : Split.t) :
  castObjectId expenseId = Some id →
  findById id (expenses db) = Some e →
  shareOf userId e i s →
  requester = Expense.paidBy e ∨ requester = userId →
  viewer ≠ userId ∨ Expense.paidBy e = viewer ∨ Split.isPaid s = true →
  totalOwed (summarize viewer
               (expenses (payExpense db expenseId userId requester).2))
  = totalOwed (summarize viewer (expenses db)).
Proof.
  intros Hc (n & Hn & Hl & Hid)%findById_Some Hs Hauth Hcase.
  pose proof Hs as (Hi & Hu & _).
  apply shareOf_find in Hs.
  rewrite (payExpense_found db expenseId id userId requester n e i s Hc Hn Hs).
  assert (negb (equals (Expense.paidBy e) requester)
          && negb (equals (Split.user s) requester) = false) as ->.
  { apply authorised_guard. by rewrite Hu. }
  cbn [snd expenses]. rewrite !summarize_totalOwed, !specTotalOwed_sum.
  rewrite (sumZ_insert _ _ n e _ Hl). cbn [withSplits Expense.paidBy].
  destruct (decide (Expense.paidBy e = viewer)) as [Hp|Hp]; [lia|].
  rewrite !snd_debitsOf. cbn [withSplits Expense.splitBetween].
  rewrite (unsettled_after_markPaid viewer _ i s Hi).
  destruct (decide (unsettledFor viewer s)) as [[Hus Hps]|Hn']; [|lia].
  exfalso. destruct Hcase as [?|[?|?]]; congruence.
Qed.

Lemma settlement_totalOwed_witness :
  totalOwed (summarize carol (expenses (payExpense sampleDb dinnerId bob alice).2))
  = totalOwed (summarize carol (expenses sampleDb)).
Proof.
  apply (settlement_totalOwed sampleDb dinnerId bob alice carol dinnerId dinner
           0%nat (Split.mk bob 50 false)).
  - reflexivity.
  - reflexivity.
  - by apply shareOf_find.
  - by left.
  - by left.
Defined.

Lemma settledFrom_refl s : settledFrom s s.
Proof. done. Qed.

Lemma settledEntry_refl e : settledEntry e e.
Proof.
  split; [apply withSplits_id|].
  apply Forall_Forall2_diag, Forall_forall. intros s _. apply settledFrom_refl.
Qed.

(** X4. Marking a share as paid changes nothing but settlement flags: the
    events and the communities are untouched, the entries stay in place,
    each keeps every field but its shares, and each share keeps its debtor
    and its amount; no share that was settled becomes unsettled. *)
Theorem settlement_only_settles (db : Db) (expenseId userId : string)
    (requester : ObjectId) :
  let db' := (payExpense db expenseId userId requester).2 in
  events db' = events db
  ∧ communities db' = communities db
  ∧ Forall2 settledEntry (expenses db) (expenses db').
Proof.
  assert (Forall2 settledEntry (expenses db) (expenses db)) as Hrefl.
  { apply Forall_Forall2_diag, Forall_forall. intros e _. apply settledEntry_refl. }
  destruct (payExpense_cases db expenseId userId requester)
    as [[_ ->]|(id & n & e & i & s & _ & Hn & Hs & _ & ->)]; [done|].
  cbn [snd events communities expenses]. split_and!; [done..|].
  apply list_find_Some in Hn as (Hn & _). apply list_find_Some in Hs as (Hs & _).
  rewrite <- (list_insert_id (expenses db) n e Hn) at 1.
  apply Forall2_insert; [done|]. split.
  - by destruct e.
  - cbn [withSplits Expense.splitBetween].
    rewrite <- (list_insert_id (Expense.splitBetween e) i s Hs) at 1.
    apply Forall2_insert; [|done].
    apply Forall_Forall2_diag, Forall_forall. intros s' _. apply settledFrom_refl.
Qed.

(** ** Requests that fail *)

Lemma deleteExpense_failure db expenseId requester :
  outcome (deleteExpense db expenseId requester).1 ≠ Success →
  (deleteExpense db expenseId requester).2 = db.
Proof.
  unfold deleteExpense.
  destruct (castObjectId expenseId) as [id|]; [|done].
  destruct (findById id (expenses db)) as [e|]; [|done].
  by destruct (negb _).
Qed.

(** X5. A request that is not answered with 200 or 201 leaves the store
    exactly as it was, whichever of the three state-changing routes it
    addresses. *)
Theorem failed_request_keeps_store (db : Db) (op : Op) :
  outcome (step db op).1 ≠ Success → (step db op).2 = db.
Proof.
  destruct op as [requester b file newId now
                 |expenseId userId requester
                 |expenseId requester]; cbn [step].
  - apply createExpense_failure.
  - intros Hf.
    destruct (payExpense_cases db expenseId userId requester)
      as [[_ ->]|(id & n & e & i & s & _ & _ & _ & _ & Heq)]; [done|].
    by rewrite Heq in Hf.
  - apply deleteExpense_failure.
Qed.

Lemma failed_request_keeps_store_witness :
  (step sampleDb (Delete dinnerId carol)).2 = sampleDb.
Proof. apply (failed_request_keeps_store sampleDb (Delete dinnerId carol)). done. Defined.

(** ** Identifiers of the stored entries *)

Lemma createExpense_id db requester b file newId now :
  outcome (createExpense db requester b file newId now).1 = Success →
  ∃ e, (createExpense db requester b file newId now).1
         = mkResponse 201 (ExpenseDoc e)
       ∧ expenses (createExpense db requester b file newId now).2
         = expenses db ++ [e]
       ∧ communities (createExpense db requester b file newId now).2
         = communities db
       ∧ Expense._id e = newId
       ∧ Expense.paidBy e = requester
       ∧ Expense.createdAt e = now
       ∧ Expense.receipt e = file
       ∧ castEvent (eventId b) = Some (Expense.event e).
Proof.
  intros Hs.
  destruct (createExpense_Success _ _ _ _ _ _ Hs)
    as (_ & cid & c & event & _ & _ & Hev & ->).
  eexists. by split_and!.
Qed.

Lemma step_unique_ids db op :
  freshId db op →
  NoDup (Expense._id <$> expenses db) →
  NoDup (Expense._id <$> expenses (step db op).2).
Proof.
  destruct op as [requester b file newId now
                 |expenseId userId requester
                 |expenseId requester]; cbn [step freshId]; intros Hfresh Hnd.
  - destruct (decide (outcome (createExpense db requester b file newId now).1
                      = Success)) as [Hs|Hs].
    + destruct (createExpense_id _ _ _ _ _ _ Hs) as (e & _ & -> & _ & Hid & _).
      rewrite fmap_app. apply NoDup_app. split_and!; [done| |apply NoDup_singleton].
      intros x Hx Hx'. apply list_elem_of_singleton in Hx' as ->.
      apply Hfresh. by rewrite <- Hid.
    + by rewrite createExpense_failure.
  - destruct (payExpense_cases db expenseId userId requester)
      as [[_ ->]|(id & n & e & i & s & _ & Hn & _ & _ & ->)]; [done|].
    cbn [snd expenses]. rewrite list_fmap_insert. cbn [withSplits Expense._id].
    apply list_find_Some in Hn as (Hn & _).
    rewrite list_insert_id; [done|]. by rewrite list_lookup_fmap, Hn.
  - unfold deleteExpense.
    destruct (castObjectId expenseId) as [id|]; [|done].
    destruct (findById id (expenses db)) as [e|]; [|done].
    destruct (negb _); [done|].
    assert (NoDup (Expense._id <$> deleteOne e (expenses db))) as Hdel.
    { unfold deleteOne. destruct (list_find _ _) as [[n e0]|]; [|done].
      rewrite list_fmap_delete. by eapply sublist_NoDup; [|apply sublist_delete]. }
    by destruct (Expense.event e).
Qed.

(** X6. When every new entry is given an identifier that no stored entry
    has, the identifiers of the stored entries stay pairwise distinct along
    any sequence of create, pay and delete requests. *)
Theorem unique_ids_preserved (ops : list Op) : ∀ db : Db,
  freshIds db ops →
  NoDup (Expense._id <$> expenses db) →
  NoDup (Expense._id <$> expenses (run db ops)).
Proof.
  induction ops as [|op ops IH]; intros db Hfresh Hnd; [done|].
  destruct Hfresh as [Hop Hops]. unfold run. cbn [foldl].
  apply IH; [done|]. by apply step_unique_ids.
Qed.

Lemma unique_ids_preserved_witness :
  NoDup (Expense._id
           <$> expenses (run campus [Create alice dinnerBody None dinnerId 1000;
                                     Create alice taxiBody None taxiId 2000;
                                     Pay dinnerId bob bob;
                                     Delete taxiId alice])).
Proof.
  apply (unique_ids_preserved
           [Create alice dinnerBody None dinnerId 1000;
            Create alice taxiBody None taxiId 2000;
            Pay dinnerId bob bob;
            Delete taxiId alice] campus).
  - cbn [freshIds freshId]. split_and!; [| |done..].
    + apply (bool_decide_unpack _). by vm_compute.
    + apply (bool_decide_unpack _). by vm_compute.
  - apply NoDup_nil_2.
Defined.

(** ** Lookups after a deletion and after a creation *)

Lemma list_find_delete_other {A} (Q : A → Prop) `{∀ x, Decision (Q x)}
    (l : list A) : ∀ n x,
  l !! n = Some x → ¬ Q x →
  snd <$> list_find Q (delete n l) = snd <$> list_find Q l.
Proof.
  induction l as [|a l IH]; intros n x Hn Hx; [done|].
  destruct n as [|n]; simpl in Hn.
  - simplify_eq. change (delete 0%nat (x :: l)) with l.
    cbn [list_find]. rewrite decide_False by done.
    by destruct (list_find Q l) as [[? ?]|].
  - change (delete (S n) (a :: l)) with (a :: delete n l).
    cbn [list_find]. destruct (decide (Q a)); [done|].
    pose proof (IH n x Hn Hx) as IH'.
    destruct (list_find Q (delete n l)) as [[? ?]|],
             (list_find Q l) as [[? ?]|]; simpl in *; congruence.
Qed.

Lemma deleteExpense_Success db expenseId requester :
  outcome (deleteExpense db expenseId requester).1 = Success →
  ∃ id n e,
    castObjectId expenseId = Some id
    ∧ list_find (λ x, Expense._id x = id) (expenses db) = Some (n, e)
    ∧ requester = Expense.paidBy e
    ∧ deleteExpense db expenseId requester
      = (mkResponse 200 (Message "Expense deleted successfully"),
         mkDb (delete n (expenses db))
              (match Expense.event e with
               | Some ev => pullExpense ev id (events db)
               | None => events db
               end)
              (communities db)).
Proof.
  unfold deleteExpense, findById, equals.
  destruct (castObjectId expenseId) as [id|]; [|done].
  destruct (list_find _ (expenses db)) as [[n e]|] eqn:Hn; [|done].
  cbn [fmap option_fmap option_map snd].
  case_bool_decide as Hp; [|done]. intros _.
  exists id, n, e. split_and!; [done..|].
  pose proof Hn as (_ & Hid & _)%list_find_Some.
  cbn [negb]. f_equal.
  assert (∀ evs c, deleteOne e (expenses (mkDb (expenses db) evs c))
                   = delete n (expenses db)) as Hdel.
  { intros evs c. unfold deleteOne. cbn [expenses]. by rewrite Hid, Hn. }
  destruct (Expense.event e) as [ev|]; cbn [events communities].
  - by rewrite Hdel, Hid.
  - unfold deleteOne. by rewrite Hid, Hn.
Qed.

(** X7. After an accepted deletion every other identifier is looked up as
    before; when the identifiers of the store are pairwise distinct, the
    deleted identifier is no longer found and a second deletion of it is
    answered with 404. *)
Theorem delete_then_lookup (db : Db) (expenseId : string) (requester : ObjectId)
    (id : ObjectId) :
  castObjectId expenseId = Some id →
  outcome (deleteExpense db expenseId requester).1 = Success →
  let db' := (deleteExpense db expenseId requester).2 in
  (∀ id', id' ≠ id → findById id' (expenses db') = findById id' (expenses db))
  ∧ (NoDup (Expense._id <$> expenses db) →
       findById id (expenses db') = None
       ∧ outcome (deleteExpense db' expenseId requester).1 = NotFound).
Proof.
  intros Hc (id0 & n & e & Hc0 & Hn & _ & Heq)%deleteExpense_Success db'.
  assert (id0 = id) as -> by congruence.
  subst db'. rewrite Heq. cbn [snd expenses].
  pose proof Hn as (Hl & Hid & _)%list_find_Some. split.
  - intros id' Hne. unfold findById.
    apply (list_find_delete_other _ _ n e Hl). congruence.
  - intros Hnd.
    assert (findById id (delete n (expenses db)) = None) as Hgone.
    { apply findById_None. intros e' He' Heq'.
      rewrite (delete_Permutation _ n e Hl), fmap_cons in Hnd.
      apply NoDup_cons in Hnd as [Hnin _]. apply Hnin.
      rewrite Hid, <- Heq'. by apply list_elem_of_fmap_2. }
    split; [done|]. unfold deleteExpense. cbn [expenses].
    by rewrite Hc, Hgone.
Qed.

Lemma delete_then_lookup_witness :
  (∀ id', id' ≠ dinnerId →
     findById id' (expenses (deleteExpense sampleDb dinnerId alice).2)
     = findById id' (expenses sampleDb))
  ∧ (NoDup (Expense._id <$> expenses sampleDb) →
       findById dinnerId (expenses (deleteExpense sampleDb dinnerId alice).2) = None
       ∧ outcome (deleteExpense (deleteExpense sampleDb dinnerId alice).2
                    dinnerId alice).1 = NotFound).
Proof.
  apply (delete_then_lookup sampleDb dinnerId alice dinnerId); reflexivity.
Defined.

Lemma findById_app_fresh id (l : list Expense.t) e :
  (∀ e0, e0 ∈ l → Expense._id e0 ≠ id) → Expense._id e = id →
  list_find (λ x, Expense._id x = id) (l ++ [e]) = Some (length l, e).
Proof.
  intros Hfresh Hid.
  assert (list_find (λ x, Expense._id x = id) l = None) as Hnone
    by (by apply list_find_None, Forall_forall).
  rewrite (list_find_app_r _ _ _ Hnone). cbn [list_find].
  by rewrite decide_True by done.
Qed.

Lemma findById_app_other id id' (l : list Expense.t) e :
  Expense._id e = id → id' ≠ id →
  findById id' (l ++ [e]) = findById id' l.
Proof.
  intros Hid Hne. unfold findById.
  destruct (list_find (λ x, Expense._id x = id') l) as [[n e0]|] eqn:Hf.
  - by rewrite (list_find_app_l _ _ _ _ _ Hf).
  - rewrite (list_find_app_r _ _ _ Hf). cbn [list_find].
    by rewrite decide_False by congruence.
Qed.

(** X8. An accepted creation answers with the stored entry: its identifier
    is the new one, its payer is the requester, its creation time and its
    receipt are those of the request. Every other identifier is looked up as
    before, and when no stored entry had the new identifier, looking it up
    gives the entry of the answer. *)
Theorem create_then_lookup (db : Db) (requester : ObjectId) (b : CreateBody)
    (file : option string) (newId : ObjectId) (now : Z) :
  outcome (createExpense db requester b file newId now).1 = Success →
  let r := createExpense db requester b file newId now in
  ∃ e, r.1 = mkResponse 201 (ExpenseDoc e)
       ∧ Expense._id e = newId
       ∧ Expense.paidBy e = requester
       ∧ Expense.createdAt e = now
       ∧ Expense.receipt e = file
       ∧ e ∈ expenses r.2
       ∧ (∀ id, id ≠ newId →
            findById id (expenses r.2) = findById id (expenses db))
       ∧ ((∀ e0, e0 ∈ expenses db → Expense._id e0 ≠ newId) →
            findById newId (expenses r.2) = Some e).
Proof.
  intros Hs r. subst r.
  destruct (createExpense_id _ _ _ _ _ _ Hs)
    as (e & -> & -> & _ & Hid & Hp & Ht & Hr & _).
  exists e. split_and!; [done..| | |].
  - apply elem_of_app. right. by apply list_elem_of_singleton.
  - intros id Hne. by apply (findById_app_other newId).
  - intros Hfresh. unfold findById.
    by rewrite (findById_app_fresh newId _ e Hfresh Hid).
Qed.

Lemma create_then_lookup_witness :
  ∃ e, (createExpense campus alice dinnerBody None dinnerId 1000).1
         = mkResponse 201 (ExpenseDoc e)
       ∧ Expense._id e = dinnerId
       ∧ Expense.paidBy e = alice
       ∧ Expense.createdAt e = 1000
       ∧ Expense.receipt e = None
       ∧ e ∈ expenses (createExpense campus alice dinnerBody None dinnerId 1000).2
       ∧ (∀ id, id ≠ dinnerId →
            findById id (expenses (createExpense campus alice dinnerBody None
                                     dinnerId 1000).2)
            = findById id (expenses campus))
       ∧ ((∀ e0, e0 ∈ expenses campus → Expense._id e0 ≠ dinnerId) →
            findById dinnerId (expenses (createExpense campus alice dinnerBody
                                           None dinnerId 1000).2) = Some e).
Proof.
  apply (create_then_lookup campus alice dinnerBody None dinnerId 1000).
  reflexivity.
Defined.

(** ** Creation and the entry list of the event *)

Lemma filter_all {A} (P : A → Prop) `{∀ x, Decision (P x)} (l : list A) :
  (∀ x, x ∈ l → P x) → filter P l = l.
Proof.
  induction l as [|a l IH]; intros Hl; [done|].
  rewrite filter_cons_True by (apply Hl, elem_of_cons; by left).
  f_equal. apply IH. intros x Hx. apply Hl, elem_of_cons. by right.
Qed.

Lemma pushExpense_lookup id x (evs : list Event.t) doc :
  findEventById id evs = Some doc →
  findEventById id (pushExpense id x evs)
  = Some (Event.mk (Event._id doc) (Event.community doc) (Event.expenses doc ++ [x])).
Proof.
  unfold findEventById, pushExpense.
  destruct (list_find _ evs) as [[i doc0]|] eqn:Hf; [|done].
  intros [= ->]. pose proof Hf as (_ & Hid & _)%list_find_Some.
  by erewrite list_find_insert_here; [|exact Hf|exact Hid].
Qed.

Lemma pushExpense_missing id x (evs : list Event.t) :
  findEventById id evs = None → pushExpense id x evs = evs.
Proof.
  unfold findEventById, pushExpense.
  by destruct (list_find _ evs) as [[i doc0]|].
Qed.

Lemma pushExpense_other id id' x (evs : list Event.t) :
  id' ≠ id →
  findEventById id' (pushExpense id x evs) = findEventById id' evs.
Proof.
  intros Hne. unfold pushExpense, findEventById.
  destruct (list_find _ evs) as [[i ev0]|] eqn:Hf; [|done].
  pose proof Hf as (Hi & Hid & _)%list_find_Some.
  by erewrite list_find_insert_other; [|exact Hi|simpl; congruence..].
Qed.

(** Taking out an identifier that was just registered, and was not in any
    list before, restores the events. *)
Lemma pull_push id x (evs : list Event.t) :
  (∀ doc, doc ∈ evs → x ∉ Event.expenses doc) →
  pullExpense id x (pushExpense id x evs) = evs.
Proof.
  intros Hfresh. unfold pushExpense.
  destruct (list_find (λ e, Event._id e = id) evs) as [[i doc]|] eqn:Hf.
  - pose proof Hf as (Hi & Hid & _)%list_find_Some.
    unfold pullExpense.
    erewrite list_find_insert_here; [|exact Hf|exact Hid].
    rewrite list_insert_insert_eq. cbn [Event._id Event.community Event.expenses].
    apply list_insert_id. rewrite Hi. f_equal.
    rewrite filter_app, filter_cons_False, filter_nil, app_nil_r by (by intros ?).
    rewrite filter_all; [by destruct doc|].
    intros y Hy ->. by apply (Hfresh doc); [eapply list_elem_of_lookup_2|].
  - unfold pullExpense. by rewrite Hf.
Qed.

Lemma castEvent_Some_Some eventId ev :
  castEvent eventId = Some (Some ev) →
  ∃ s, eventId = Some s ∧ castObjectId s = Some ev
       ∧ truthyValue eventId = Some s.
Proof.
  destruct eventId as [s|]; [|done]. cbn [castEvent].
  destruct (castObjectId s) as [ev'|] eqn:Hc; [|done]. intros [= ->].
  exists s. split_and!; [done..|]. by eapply castObjectId_truthy.
Qed.

Lemma castEvent_Some_None eventId :
  castEvent eventId = Some None → eventId = None.
Proof.
  destruct eventId as [s|]; [|done]. cbn [castEvent].
  by destruct (castObjectId s).
Qed.

(** X9. What an accepted creation does to the events. Without an
    [eventId] the entry has no event and the events are untouched. With an
    [eventId] the entry refers to that event, whether it exists or not: if
    it does, the new identifier is appended to its entry list; if it does
    not, the events are untouched. No other event changes. *)
Theorem create_registers (db : Db) (requester : ObjectId) (b : CreateBody)
    (file : option string) (newId : ObjectId) (now : Z) :
  outcome (createExpense db requester b file newId now).1 = Success →
  let r := createExpense db requester b file newId now in
  ∃ e, r.1 = mkResponse 201 (ExpenseDoc e)
    ∧ (eventId b = None → Expense.event e = None ∧ events r.2 = events db)
    ∧ (∀ s, eventId b = Some s →
         ∃ ev, castObjectId s = Some ev
           ∧ Expense.event e = Some ev
           ∧ (∀ doc, findEventById ev (events db) = Some doc →
                findEventById ev (events r.2)
                = Some (Event.mk (Event._id doc) (Event.community doc)
                                 (Event.expenses doc ++ [newId])))
           ∧ (findEventById ev (events db) = None → events r.2 = events db)
           ∧ (∀ ev', ev' ≠ ev →
                findEventById ev' (events r.2) = findEventById ev' (events db))).
Proof.
  intros Hs r. subst r.
  destruct (createExpense_Success _ _ _ _ _ _ Hs)
    as (_ & cid & c & event & _ & _ & Hev & ->).
  eexists. split; [done|]. cbn [snd events Expense.event]. split.
  - intros Hnone. rewrite Hnone in Hev |- *. by injection Hev as <-.
  - intros s Hsome. rewrite Hsome in Hev |- *. cbn [castEvent] in Hev.
    destruct (castObjectId s) as [ev|] eqn:Hc; [|done].
    injection Hev as <-. exists ev.
    rewrite (castObjectId_truthy s ev Hc). split_and!; [done..| | |].
    + apply pushExpense_lookup.
    + apply pushExpense_missing.
    + intros ev' Hne. by apply pushExpense_other.
Qed.

Lemma create_registers_witness :
  ∃ e, (createExpense campus alice dinnerBody None dinnerId 1000).1
         = mkResponse 201 (ExpenseDoc e)
    ∧ (eventId dinnerBody = None →
         Expense.event e = None
         ∧ events (createExpense campus alice dinnerBody None dinnerId 1000).2
           = events campus)
    ∧ (∀ s, eventId dinnerBody = Some s →
         ∃ ev, castObjectId s = Some ev
           ∧ Expense.event e = Some ev
           ∧ (∀ doc, findEventById ev (events campus) = Some doc →
                findEventById ev
                  (events (createExpense campus alice dinnerBody None dinnerId 1000).2)
                = Some (Event.mk (Event._id doc) (Event.community doc)
                                 (Event.expenses doc ++ [dinnerId])))
           ∧ (findEventById ev (events campus) = None →
                events (createExpense campus alice dinnerBody None dinnerId 1000).2
                = events campus)
           ∧ (∀ ev', ev' ≠ ev →
                findEventById ev'
                  (events (createExpense campus alice dinnerBody None dinnerId 1000).2)
                = findEventById ev' (events campus))).
Proof.
  apply (create_registers campus alice dinnerBody None dinnerId 1000).
  reflexivity.
Defined.

Lemma createExpense_result db requester b file newId now :
  outcome (createExpense db requester b file newId now).1 = Success →
  ∃ e, createExpense db requester b file newId now
       = (mkResponse 201 (ExpenseDoc e),
          mkDb (expenses db ++ [e])
               (match truthyValue (eventId b), Expense.event e with
                | Some _, Some ev => pushExpense ev newId (events db)
                | _, _ => events db
                end)
               (communities db))
     ∧ Expense._id e = newId
     ∧ Expense.paidBy e = requester
     ∧ castEvent (eventId b) = Some (Expense.event e).
Proof.
  intros Hs.
  destruct (createExpense_Success _ _ _ _ _ _ Hs)
    as (_ & cid & c & event & _ & _ & Hev & ->).
  eexists (Expense.mk newId _ _ _ requester _ event _ _ _ _).
  split_and!; [reflexivity|done..].
Qed.

(** X10. Creating an entry and deleting it again restores the store: when
    the new identifier is an ObjectId that no stored entry has and no event
    lists, the deletion by the creator is accepted and leaves the store as
    it was before the creation. *)
Theorem create_then_delete (db : Db) (requester : ObjectId) (b : CreateBody)
    (file : option string) (newId : ObjectId) (now : Z) :
  outcome (createExpense db requester b file newId now).1 = Success →
  castObjectId newId = Some newId →
  (∀ e, e ∈ expenses db → Expense._id e ≠ newId) →
  (∀ doc, doc ∈ events db → newId ∉ Event.expenses doc) →
  deleteExpense (createExpense db requester b file newId now).2 newId requester
  = (mkResponse 200 (Message "Expense deleted successfully"), db).
Proof.
  intros Hs Hc Hfresh Hevs.
  destruct (createExpense_result _ _ _ _ _ _ Hs) as (e & -> & Hid & Hp & Hev).
  pose proof (findById_app_fresh newId (expenses db) e Hfresh Hid) as Hfind.
  cbn [snd]. unfold deleteExpense, findById, equals. cbn [expenses].
  rewrite Hc, Hfind. cbn [fmap option_fmap option_map snd].
  rewrite bool_decide_eq_true_2 by done. cbn [negb]. f_equal.
  assert (∀ evs cs, deleteOne e (expenses (mkDb (expenses db ++ [e]) evs cs))
                    = expenses db) as Hdel.
  { intros evs cs. unfold deleteOne. cbn [expenses]. rewrite Hid, Hfind.
    by rewrite delete_middle, app_nil_r. }
  destruct (Expense.event e) as [ev|].
  - apply castEvent_Some_Some in Hev as (s & _ & _ & ->).
    rewrite Hdel, Hid. cbn [events communities expenses].
    rewrite (pull_push ev newId (events db) Hevs). by destruct db.
  - apply castEvent_Some_None in Hev. rewrite Hev. cbn [truthyValue truthy].
    rewrite Hdel. cbn [events communities]. by destruct db.
Qed.

Lemma create_then_delete_witness :
  deleteExpense (createExpense campus alice dinnerBody None dinnerId 1000).2
    dinnerId alice
  = (mkResponse 200 (Message "Expense deleted successfully"), campus).
Proof.
  apply (create_then_delete campus alice dinnerBody None dinnerId 1000).
  - reflexivity.
  - reflexivity.
  - intros e He. by apply not_elem_of_nil in He.
  - intros doc Hdoc. apply list_elem_of_singleton in Hdoc as ->.
    apply not_elem_of_nil.
Defined.

(** ** When a creation is accepted *)

Lemma validationResult_nil_iff b :
  validationResult b = [] ↔
  trim (default ""%string (title b)) ≠ ""%string ∧ acceptable b.
Proof.
  split.
  - intros Hv. split; [|by apply validationResult_nil].
    unfold validationResult, check in Hv.
    apply app_eq_nil in Hv as [Ht _]. intros Heq.
    by rewrite bool_decide_eq_true_2 in Ht.
  - intros (Ht & (a & Ha & Hpos) & (c & Hc & Hin) & (id & Hid & Hm)).
    unfold validationResult, check. rewrite Ha, Hc, Hid.
    cbn [from_option Datatypes.id].
    rewrite (bool_decide_eq_false_2 _ Ht), Hm.
    by rewrite !bool_decide_eq_true_2.
Qed.

(** X11. POST /create is accepted only when the trimmed title is not empty,
    the amount is a number not below zero, the category is allowed, the
    community identifier is the ObjectId of a stored community of which the
    requester is a member, the event identifier, if there is one, is an
    ObjectId (or a string of 12 bytes, which some versions of the driver
    read as one), and the shares can be parsed and cast. *)
Theorem create_accepted_only_if (db : Db) (requester : ObjectId) (b : CreateBody)
    (file : option string) (newId : ObjectId) (now : Z) :
  outcome (createExpense db requester b file newId now).1 = Success →
  trim (default ""%string (title b)) ≠ ""%string
  ∧ acceptable b
  ∧ (∃ cid c, castObjectId (default ""%string (communityId b)) = Some cid
              ∧ findCommunityById cid (communities db) = Some c
              ∧ requester ∈ Community.members c)
  ∧ (∀ s, eventId b = Some s → String.length s ≠ 12%nat →
          checkForHexRegExp s = true)
  ∧ splitsThrow b = false.
Proof.
  unfold createExpense.
  destruct (validationResult b) eqn:Hv; [|done].
  apply validationResult_nil_iff in Hv as [Ht Hacc].
  destruct (castObjectId _) as [cid|] eqn:Hcid; [|done].
  destruct (findCommunityById _ _) as [c|] eqn:Hc; [|done].
  case_bool_decide as Hmem; [|done]. cbn [negb].
  destruct (castEvent _) as [event|] eqn:Hev; [|done].
  destruct (splitsThrow b); [done|]. intros _.
  split_and!; [done..| | |done].
  - by exists cid, c.
  - intros s Hs _. rewrite Hs in Hev. cbn [castEvent] in Hev.
    unfold castObjectId in Hev. by destruct (checkForHexRegExp s).
Qed.

Lemma create_accepted_only_if_witness :
  trim (default ""%string (title dinnerBody)) ≠ ""%string
  ∧ acceptable dinnerBody
  ∧ (∃ cid c, castObjectId (default ""%string (communityId dinnerBody)) = Some cid
              ∧ findCommunityById cid (communities campus) = Some c
              ∧ alice ∈ Community.members c)
  ∧ (∀ s, eventId dinnerBody = Some s → String.length s ≠ 12%nat →
          checkForHexRegExp s = true)
  ∧ splitsThrow dinnerBody = false.
Proof.
  apply (create_accepted_only_if campus alice dinnerBody None dinnerId 1000).
  reflexivity.
Defined.

(** ** What the validators report, and what fails after them *)

Example trim_white_space :
  trim (nbsp +:+ " Tea " +:+ emSpace) = "Tea"%string
  ∧ trim (nbsp +:+ " " +:+ emSpace) = ""%string
  ∧ trim "A  B" = "A  B"%string.
Proof. by vm_compute. Qed.

Lemma check_elem_of ok param x : x ∈ check ok param ↔ ok = false ∧ x = param.
Proof.
  unfold check. destruct ok.
  - split; [by intros ?%not_elem_of_nil|by intros [? _]].
  - rewrite list_elem_of_singleton. tauto.
Qed.

Lemma check_sublist ok param : check ok param `sublist_of` [param].
Proof. unfold check. destruct ok; [apply sublist_nil_l|done]. Qed.

(** X20. The 400 answer of POST /create lists every check that fails, and
    only those, in the order of the validators: the title when it is empty
    once trimmed, the amount when it is not a number or is below 0, the
    category when it is not one of the five, the community identifier when
    [isMongoId] refuses it. The answer is 400 exactly when one of them
    fails, and nothing is stored. *)
Theorem create_validation_errors (db : Db) (requester : ObjectId) (b : CreateBody)
    (file : option string) (newId : ObjectId) (now : Z) :
  let r := createExpense db requester b file newId now in
  (outcome r.1 = ValidationError ↔ validationResult b ≠ [])
  ∧ (validationResult b ≠ [] →
       r = (mkResponse 400 (Errors (validationResult b)), db))
  ∧ validationResult b
      `sublist_of` ["title"; "amount"; "category"; "communityId"]%string
  ∧ ("title"%string ∈ validationResult b
       ↔ trim (default ""%string (title b)) = ""%string)
  ∧ ("amount"%string ∈ validationResult b
       ↔ ∀ a, amount b = Some a → a < 0)
  ∧ ("category"%string ∈ validationResult b
       ↔ default ""%string (category b) ∉ categories)
  ∧ ("communityId"%string ∈ validationResult b
       ↔ isMongoId (default ""%string (communityId b)) = false).
Proof.
  intros r.
  assert (validationResult b ≠ [] →
          r = (mkResponse 400 (Errors (validationResult b)), db)) as H400.
  { subst r. unfold createExpense. by destruct (validationResult b). }
  split_and!.
  - split.
    + intros Hv Hnil. subst r. unfold createExpense in Hv. rewrite Hnil in Hv.
      destruct (castObjectId _); [|done].
      destruct (findCommunityById _ _); [|done].
      destruct (negb _); [done|].
      destruct (castEvent _); [|done]. by destruct (splitsThrow b).
    + intros Hv. by rewrite (H400 Hv).
  - done.
  - unfold validationResult.
    change ["title"; "amount"; "category"; "communityId"]%string
      with (["title"%string] ++ ["amount"%string] ++ ["category"%string]
              ++ ["communityId"%string])%list.
    repeat apply sublist_app; apply check_sublist.
  - unfold validationResult. rewrite !elem_of_app, !check_elem_of.
    rewrite negb_false_iff, bool_decide_eq_true. split.
    + by intros [[? _]|[[_ ?]|[[_ ?]|[_ ?]]]].
    + intros ?. by left.
  - unfold validationResult. rewrite !elem_of_app, !check_elem_of.
    destruct (amount b) as [a|].
    + rewrite bool_decide_eq_false. split.
      * intros [[_ ?]|[[Ha _]|[[_ ?]|[_ ?]]]]; try done.
        intros a' [= <-]. lia.
      * intros Ha. right. left. split; [|done]. specialize (Ha a eq_refl). lia.
    + split; [done|]. intros _. right. by left.
  - unfold validationResult. rewrite !elem_of_app, !check_elem_of.
    rewrite bool_decide_eq_false. split.
    + by intros [[_ ?]|[[_ ?]|[[? _]|[_ ?]]]].
    + intros ?. right. right. by left.
  - unfold validationResult. rewrite !elem_of_app, !check_elem_of. split.
    + by intros [[_ ?]|[[_ ?]|[[_ ?]|[? _]]]].
    + intros ?. right. right. by right.
Qed.

Lemma create_validation_errors_witness :
  createExpense campus alice blankBody None dinnerId 1000
  = (mkResponse 400 (Errors (validationResult blankBody)), campus).
Proof.
  apply (proj1 (proj2 (create_validation_errors campus alice blankBody None
                         dinnerId 1000))).
  discriminate.
Defined.

Example blank_title_errors :
  validationResult blankBody = ["title"; "amount"]%string.
Proof. by vm_compute. Qed.

(** X21. A request that passes the validators is still answered 500, with
    nothing stored, when its community identifier is not an ObjectId (the
    validator admits a prefix [0x] or [0h], which the cast refuses), and,
    once the community is found and the requester is one of its members,
    when its event identifier is not an ObjectId (nor a string of 12
    bytes) or its shares cannot be parsed or cast. *)
Theorem create_cast_failure (db : Db) (requester : ObjectId) (b : CreateBody)
    (file : option string) (newId : ObjectId) (now : Z) :
  validationResult b = [] →
  let r := createExpense db requester b file newId now in
  (castObjectId (default ""%string (communityId b)) = None →
     outcome r.1 = InternalError ∧ r.2 = db)
  ∧ (∀ cid c,
       castObjectId (default ""%string (communityId b)) = Some cid →
       findCommunityById cid (communities db) = Some c →
       requester ∈ Community.members c →
       (∃ s, eventId b = Some s ∧ castObjectId s = None
             ∧ String.length s ≠ 12%nat)
       ∨ splitsThrow b = true →
       outcome r.1 = InternalError ∧ r.2 = db).
Proof.
  intros Hv r. subst r. unfold createExpense. rewrite Hv. split.
  - by intros ->.
  - intros cid c -> -> Hmem Hbad.
    rewrite bool_decide_eq_true_2 by done. cbn [negb].
    destruct Hbad as [(s & -> & Hs & _)|Ht].
    + cbn [castEvent]. by rewrite Hs.
    + destruct (castEvent _); [|done]. by rewrite Ht.
Qed.

Lemma create_cast_failure_witness :
  (outcome (createExpense campus alice prefixedBody None dinnerId 1000).1
     = InternalError
   ∧ (createExpense campus alice prefixedBody None dinnerId 1000).2 = campus)
  ∧ (outcome (createExpense campus alice garbledBody None dinnerId 1000).1
       = InternalError
     ∧ (createExpense campus alice garbledBody None dinnerId 1000).2 = campus).
Proof.
  split.
  - apply (proj1 (create_cast_failure campus alice prefixedBody None dinnerId 1000
                    eq_refl)).
    reflexivity.
  - apply (proj2 (create_cast_failure campus alice garbledBody None dinnerId 1000
                    eq_refl)
             hostel (Community.mk hostel [alice; bob; carol])).
    + reflexivity.
    + reflexivity.
    + apply elem_of_cons. by left.
    + by right.
Defined.

(** ** The summary and the listing of one scope *)

(** X12. GET /summary and GET / select the same entries: whenever GET /
    answers with a list of entries, GET /summary with the same parameters
    answers with the summary of the same entries, which it visits in the
    order of the store and GET / lists newest first. *)
Theorem summary_over_listed (db : Db) (viewer : ObjectId)
    (communityId eventId : option string) (l : list Expense.t) :
  getExpenses db communityId eventId = mkResponse 200 (ExpenseList l) →
  ∃ found, found ≡ₚ l
    ∧ l = sortNewestFirst found
    ∧ found `sublist_of` expenses db
    ∧ getSummary db viewer communityId eventId
      = mkResponse 200 (SummaryDoc (summarize viewer found)).
Proof.
  unfold getExpenses, getSummary, summaryQuery.
  destruct (truthyValue eventId) as [s|].
  - destruct (castObjectId s) as [ev|]; [|done]. intros [= <-].
    cbn [fmap option_fmap option_map]. eexists. split_and!; [|done| |done].
    + symmetry. apply merge_sort_Permutation.
    + apply sublist_filter.
  - destruct (truthyValue communityId) as [s|]; [|done].
    destruct (castObjectId s) as [c|]; [|done]. intros [= <-].
    cbn [fmap option_fmap option_map]. eexists. split_and!; [|done| |done].
    + symmetry. apply merge_sort_Permutation.
    + apply sublist_filter.
Qed.

Lemma summary_over_listed_witness :
  ∃ found, found ≡ₚ [dinner]
    ∧ [dinner] = sortNewestFirst found
    ∧ found `sublist_of` expenses sampleDb
    ∧ getSummary sampleDb bob (Some hostel) None
      = mkResponse 200 (SummaryDoc (summarize bob found)).
Proof.
  apply (summary_over_listed sampleDb bob (Some hostel) None [dinner]).
  reflexivity.
Defined.

(** ** Entries and the entry lists of the events *)

Lemma linkOf_elem_of (l : list Expense.t) x ev :
  (∃ e, e ∈ l ∧ Expense._id e = x ∧ Expense.event e = Some ev)
  ↔ (x, Some ev) ∈ linkOf <$> l.
Proof.
  rewrite list_elem_of_fmap. unfold linkOf. split.
  - intros (e & He & <- & <-). by exists e.
  - intros (e & [= -> ->] & He). by exists e.
Qed.

(** With distinct identifiers, two stored entries with the same identifier
    are the same entry. *)
Lemma same_id_same_entry (l : list Expense.t) e1 e2 :
  NoDup (Expense._id <$> l) → e1 ∈ l → e2 ∈ l →
  Expense._id e1 = Expense._id e2 → e1 = e2.
Proof.
  intros Hnd H1 H2 Heq.
  pose proof (findById_unique l e1 Hnd H1) as F1.
  pose proof (findById_unique l e2 Hnd H2) as F2.
  rewrite Heq in F1. congruence.
Qed.

Lemma linkOf_delete (l : list Expense.t) n e0 x ev :
  NoDup (Expense._id <$> l) → l !! n = Some e0 →
  (x, Some ev) ∈ linkOf <$> delete n l
  ↔ (x, Some ev) ∈ linkOf <$> l ∧ x ≠ Expense._id e0.
Proof.
  intros Hnd Hn.
  pose proof (delete_Permutation l n e0 Hn) as Hperm.
  assert (Expense._id e0 ∉ Expense._id <$> delete n l) as Hnin.
  { rewrite Hperm, fmap_cons in Hnd. by apply NoDup_cons in Hnd as [? _]. }
  split.
  - intros Hin. split.
    + rewrite Hperm, fmap_cons. apply elem_of_cons. by right.
    + intros ->. apply Hnin.
      apply list_elem_of_fmap in Hin as (e & [= Hid _] & He).
      rewrite Hid. by apply list_elem_of_fmap_2.
  - intros [Hin Hne]. rewrite Hperm, fmap_cons in Hin.
    apply elem_of_cons in Hin as [[= ? _]|Hin]; [done|done].
Qed.

Lemma linkOf_insert (l : list Expense.t) n e e' :
  l !! n = Some e → linkOf e' = linkOf e →
  linkOf <$> <[n := e']> l = linkOf <$> l.
Proof.
  intros Hn Heq. rewrite list_fmap_insert, Heq.
  apply list_insert_id. by rewrite list_lookup_fmap, Hn.
Qed.

Lemma create_events db requester b file newId now :
  outcome (createExpense db requester b file newId now).1 = Success →
  ∃ e, expenses (createExpense db requester b file newId now).2
       = expenses db ++ [e]
     ∧ Expense._id e = newId
     ∧ events (createExpense db requester b file newId now).2
       = match Expense.event e with
         | Some ev => pushExpense ev newId (events db)
         | None => events db
         end.
Proof.
  intros Hs.
  destruct (createExpense_result _ _ _ _ _ _ Hs) as (e & -> & Hid & _ & Hev).
  exists e. split_and!; [done..|]. cbn [snd events].
  destruct (Expense.event e) as [ev|].
  - by apply castEvent_Some_Some in Hev as (s & _ & _ & ->).
  - apply castEvent_Some_None in Hev. by rewrite Hev.
Qed.

Lemma step_linked db op :
  NoDup (Expense._id <$> expenses db) →
  linked db → linked (step db op).2.
Proof.
  intros Hnd Hl.
  assert (∀ ev doc, findEventById ev (events db) = Some doc →
          ∀ x, x ∈ Event.expenses doc ↔ (x, Some ev) ∈ linkOf <$> expenses db)
    as Hl'.
  { intros ev doc Hdoc x. rewrite <- linkOf_elem_of. by apply Hl. }
  clear Hl. intros ev doc' Hdoc' x. rewrite linkOf_elem_of.
  destruct op as [requester b file newId now
                 |expenseId userId requester
                 |expenseId requester]; cbn [step] in *.
  - destruct (decide (outcome (createExpense db requester b file newId now).1
                      = Success)) as [Hs|Hs];
      [|rewrite createExpense_failure in Hdoc' |- * by done; by apply Hl'].
    destruct (create_events _ _ _ _ _ _ Hs) as (e & He & Hid & Hevs).
    rewrite He, Hevs in *. clear He Hevs.
    rewrite fmap_app, elem_of_app.
    change (linkOf <$> [e]) with [(Expense._id e, Expense.event e)].
    rewrite list_elem_of_singleton.
    destruct (Expense.event e) as [ev0|] eqn:Hev0.
    + destruct (decide (ev = ev0)) as [->|Hne].
      * destruct (findEventById ev0 (events db)) as [doc|] eqn:Hdoc.
        -- rewrite (pushExpense_lookup _ _ _ _ Hdoc) in Hdoc'.
           injection Hdoc' as <-. cbn [Event.expenses].
           rewrite elem_of_app, list_elem_of_singleton, (Hl' ev0 doc Hdoc x), Hid.
           split; intros [?|?]; auto; [right; congruence|right; congruence].
        -- rewrite (pushExpense_missing _ _ _ Hdoc) in Hdoc'. congruence.
      * rewrite pushExpense_other in Hdoc' by done.
        rewrite (Hl' ev doc' Hdoc' x). split; [by left|].
        intros [?|[= _ ?]]; [done|congruence].
    + rewrite (Hl' ev doc' Hdoc' x). split; [by left|]. by intros [?|?].
  - destruct (payExpense_cases db expenseId userId requester)
      as [[_ Heq]|(id & n & e & i & s & _ & Hn & _ & _ & Heq)];
      rewrite Heq in *; [by apply Hl'|].
    cbn [snd expenses events] in *.
    apply list_find_Some in Hn as (Hn & _).
    rewrite (linkOf_insert _ n e _ Hn) by done. by apply Hl'.
  - destruct (decide (outcome (deleteExpense db expenseId requester).1 = Success))
      as [Hs|Hs];
      [|rewrite deleteExpense_failure in Hdoc' |- * by done; by apply Hl'].
    destruct (deleteExpense_Success _ _ _ Hs) as (id & n & e0 & _ & Hn & _ & Heq).
    rewrite Heq in *. cbn [snd expenses events] in *.
    apply list_find_Some in Hn as (Hn & Hid & _).
    rewrite (linkOf_delete _ n e0 x ev Hnd Hn), Hid.
    assert (∀ doc, findEventById ev (events db) = Some doc →
              Expense.event e0 ≠ Some ev →
              x ∈ Event.expenses doc ↔ (x, Some ev) ∈ linkOf <$> expenses db ∧ x ≠ id)
      as Hother.
    { intros doc Hdoc Hne. rewrite (Hl' ev doc Hdoc x). split; [|tauto].
      intros Hin. split; [done|]. intros ->. apply Hne.
      apply linkOf_elem_of in Hin as (e & He & Hide & Heve).
      rewrite <- Heve. f_equal. apply (same_id_same_entry (expenses db)); [done| |done|].
      - by eapply list_elem_of_lookup_2.
      - congruence. }
    destruct (Expense.event e0) as [ev0|] eqn:Hev0; [|by apply Hother].
    destruct (decide (ev = ev0)) as [->|Hne].
    + destruct (findEventById ev0 (events db)) as [doc|] eqn:Hdoc.
      * rewrite (pullExpense_lookup _ _ _ _ Hdoc) in Hdoc'.
        injection Hdoc' as <-. cbn [Event.expenses].
        rewrite list_elem_of_filter, (Hl' ev0 doc Hdoc x). tauto.
      * rewrite (pullExpense_missing _ _ _ Hdoc) in Hdoc'. congruence.
    + rewrite pullExpense_other in Hdoc' by done.
      apply Hother; [done|congruence].
Qed.

(** X13. The entry lists of the events and the entries stay in agreement:
    if every event list holds exactly the identifiers of the stored entries
    that refer to the event, and new entries get unused identifiers, this
    still holds after any sequence of create, pay and delete requests. *)
Theorem linked_preserved (ops : list Op) : ∀ db : Db,
  freshIds db ops →
  NoDup (Expense._id <$> expenses db) →
  linked db →
  linked (run db ops).
Proof.
  induction ops as [|op ops IH]; intros db Hfresh Hnd Hl; [done|].
  destruct Hfresh as [Hop Hops]. unfold run. cbn [foldl].
  apply IH; [done|by apply step_unique_ids|by apply step_linked].
Qed.

Lemma campus_linked : linked campus.
Proof.
  intros ev doc Hdoc x. unfold findEventById, campus in Hdoc.
  cbn [events list_find] in Hdoc. case_decide; [|done].
  injection Hdoc as <-. cbn [Event.expenses expenses campus]. split.
  - intros Hx. by apply not_elem_of_nil in Hx.
  - intros (e & He & _). by apply not_elem_of_nil in He.
Qed.

Lemma linked_preserved_witness :
  linked (run campus [Create alice dinnerBody None dinnerId 1000;
                      Pay dinnerId bob bob;
                      Delete dinnerId alice]).
Proof.
  apply (linked_preserved
           [Create alice dinnerBody None dinnerId 1000;
            Pay dinnerId bob bob;
            Delete dinnerId alice] campus).
  - cbn [freshIds freshId]. split_and!; [|done..].
    apply (bool_decide_unpack _). by vm_compute.
  - apply NoDup_nil_2.
  - apply campus_linked.
Defined.

(** * The upload filters (utils/cloudinary.js) *)

Example getFileExtension_pdf : getFileExtension "application/pdf" = Text "pdf".
Proof. reflexivity. Qed.

Example getFileExtension_video : getFileExtension "video/mp4" = Text "unknown".
Proof. reflexivity. Qed.

Example getFileExtension_inherited :
  getFileExtension "constructor" = Inherited "constructor".
Proof. reflexivity. Qed.

(** X14. The gallery upload admits exactly the types that are stored as an
    image or as a video: its filter accepts a type if and only if the
    resource type computed for it is not [raw]. *)
Theorem media_filter_resource_type (mimetype : string) :
  mediaFilter mimetype = None ↔ getResourceType mimetype ≠ "raw"%string.
Proof.
  unfold mediaFilter, getResourceType.
  change ["image/jpeg"; "image/jpg"; "image/png"; "image/gif";
          "video/mp4"; "video/mov"; "video/avi"; "video/webm"]%string
    with (imageTypes ++ videoTypes).
  destruct (decide (mimetype ∈ imageTypes)) as [Hi|Hi];
    destruct (decide (mimetype ∈ videoTypes)) as [Hv|Hv].
  - rewrite !bool_decide_eq_true_2; [done|done|]. apply elem_of_app. by left.
  - rewrite !bool_decide_eq_true_2; [done|done|]. apply elem_of_app. by left.
  - rewrite bool_decide_eq_true_2 by (apply elem_of_app; by right).
    by rewrite (bool_decide_eq_false_2 _ Hi), bool_decide_eq_true_2.
  - rewrite bool_decide_eq_false_2
      by (intros [?|?]%elem_of_app; tauto).
    by rewrite (bool_decide_eq_false_2 _ Hi), (bool_decide_eq_false_2 _ Hv).
Qed.

Lemma extensions_values :
  Forall (λ kv : string * string,
            kv.2 ≠ ""%string ∧ kv.2 ≠ "unknown"%string) extensions.
Proof. apply (bool_decide_unpack _). by vm_compute. Qed.

(** X15. The note upload admits exactly the types that have an extension in
    the table: its filter accepts a type if and only if [getFileExtension]
    gives a string other than ["unknown"] for it. *)
Theorem note_filter_extension (mimetype : string) :
  noteFilter mimetype = None ↔
  ∃ e, getFileExtension mimetype = Text e ∧ e ≠ "unknown"%string.
Proof.
  unfold noteFilter, getFileExtension.
  change ["application/pdf";
          "application/msword";
          "application/vnd.openxmlformats-officedocument.wordprocessingml.document";
          "application/vnd.ms-powerpoint";
          "application/vnd.openxmlformats-officedocument.presentationml.presentation";
          "application/vnd.ms-excel";
          "application/vnd.openxmlformats-officedocument.spreadsheetml.sheet";
          "image/jpeg";
          "image/jpg";
          "image/png";
          "image/gif";
          "text/plain";
          "application/zip";
          "application/x-rar-compressed"]%string
    with (extensions.*1).
  destruct (list_find (λ kv : string * string, kv.1 = mimetype) extensions)
    as [[i kv]|] eqn:Hf.
  - apply list_find_Some in Hf as (Hi & Hk & _).
    apply list_elem_of_lookup_2 in Hi.
    destruct (proj1 (Forall_forall _ _) extensions_values kv Hi) as [Hne Hunk].
    rewrite (bool_decide_eq_false_2 _ Hne).
    rewrite bool_decide_eq_true_2
      by (rewrite <- Hk; by apply list_elem_of_fmap_2).
    split; [|done]. intros _. by exists kv.2.
  - assert (mimetype ∉ extensions.*1) as Hnin.
    { intros (kv & -> & Hkv)%list_elem_of_fmap.
      apply list_find_None in Hf.
      by apply (proj1 (Forall_forall _ _) Hf kv Hkv). }
    rewrite (bool_decide_eq_false_2 _ Hnin). split; [done|].
    intros (e & He & Hne). by case_bool_decide; simplify_eq.
Qed.

(** X16. A profile picture is always an image that the gallery would admit
    as well: a type accepted by the profile filter is accepted by the
    gallery filter and has the resource type [image]. *)
Theorem profile_filter_image (mimetype : string) :
  profileFilter mimetype = None →
  mediaFilter mimetype = None ∧ getResourceType mimetype = "image"%string.
Proof.
  unfold profileFilter. case_bool_decide as Hin; [|done]. intros _.
  repeat (apply elem_of_cons in Hin as [->|Hin]); [by vm_compute..|].
  by apply not_elem_of_nil in Hin.
Qed.

Lemma profile_filter_image_witness :
  mediaFilter "image/png" = None ∧ getResourceType "image/png" = "image"%string.
Proof. apply (profile_filter_image "image/png"). reflexivity. Defined.

(** ** The receipt of an entry *)

(** X17. POST /create with its upload: a receipt whose type is neither an
    image nor a video, or whose size exceeds the limit, is refused with 500
    before anything is validated or stored; an accepted request stores as
    receipt the path of the uploaded file, absent when no file was sent. *)
Theorem receipt_upload (db : Db) (requester : ObjectId) (b : CreateBody)
    (receipt : option File.t) (newId : ObjectId) (now : Z) :
  let r := postCreate db requester b receipt newId now in
  (∀ f, receipt = Some f →
        getResourceType (File.mimetype f) = "raw"%string
        ∨ mediaFileSize < File.size f →
        outcome r.1 = InternalError ∧ r.2 = db)
  ∧ (outcome r.1 = Success →
       (∃ e, r.1 = mkResponse 201 (ExpenseDoc e)
             ∧ Expense.receipt e = File.path <$> receipt)
       ∧ ∀ f, receipt = Some f →
              getResourceType (File.mimetype f) ≠ "raw"%string
              ∧ File.size f ≤ mediaFileSize).
Proof.
  intros r. subst r. unfold postCreate, single. split.
  - intros f -> Hbad.
    destruct (mediaFilter (File.mimetype f)) as [msg|] eqn:Hm.
    + unfold errorHandler. by case_bool_decide.
    + destruct Hbad as [Hraw|Hsize].
      * by apply media_filter_resource_type in Hm.
      * by rewrite bool_decide_eq_false_2 by lia.
  - destruct receipt as [f|].
    + destruct (mediaFilter (File.mimetype f)) as [msg|] eqn:Hm.
      { unfold errorHandler. by case_bool_decide. }
      case_bool_decide as Hsize; [|done]. intros Hs. split.
      * destruct (createExpense_id _ _ _ _ _ _ Hs)
          as (e & He & _ & _ & _ & _ & _ & Hr & _).
        by exists e.
      * intros f' [= <-]. split; [|lia].
        by apply media_filter_resource_type.
    + intros Hs. split; [|done].
      destruct (createExpense_id _ _ _ _ _ _ Hs)
        as (e & He & _ & _ & _ & _ & _ & Hr & _).
      by exists e.
Qed.

Lemma receipt_upload_witness :
  outcome (postCreate campus alice dinnerBody
             (Some (File.mk "application/pdf" 2048 "https://files/receipt.pdf"))
             dinnerId 1000).1 = InternalError
  ∧ (postCreate campus alice dinnerBody
       (Some (File.mk "application/pdf" 2048 "https://files/receipt.pdf"))
       dinnerId 1000).2 = campus.
Proof.
  apply (proj1 (receipt_upload campus alice dinnerBody
                  (Some (File.mk "application/pdf" 2048 "https://files/receipt.pdf"))
                  dinnerId 1000)
           (File.mk "application/pdf" 2048 "https://files/receipt.pdf") eq_refl).
  left. reflexivity.
Defined.

Lemma mediaFilter_accepts mimetype :
  getResourceType mimetype ≠ "raw"%string → mediaFilter mimetype = None.
Proof.
  unfold mediaFilter, getResourceType.
  change ["image/jpeg"; "image/jpg"; "image/png"; "image/gif";
          "video/mp4"; "video/mov"; "video/avi"; "video/webm"]%string
    with (imageTypes ++ videoTypes).
  destruct (decide (mimetype ∈ imageTypes)) as [Hi|Hi].
  { intros _. rewrite bool_decide_eq_true_2; [done|]. apply elem_of_app. by left. }
  destruct (decide (mimetype ∈ videoTypes)) as [Hv|Hv].
  { intros _. rewrite bool_decide_eq_true_2; [done|]. apply elem_of_app. by right. }
  by rewrite (bool_decide_eq_false_2 _ Hi), (bool_decide_eq_false_2 _ Hv).
Qed.

(** X22. The size limit of the receipt: a file whose size reaches 100 MB is
    answered 500 and nothing is stored, whatever its type; an image or a
    video below the limit reaches the handler with the path of the file. *)
Theorem receipt_size_limit (db : Db) (requester : ObjectId) (b : CreateBody)
    (f : File.t) (newId : ObjectId) (now : Z) :
  let r := postCreate db requester b (Some f) newId now in
  (mediaFileSize ≤ File.size f → outcome r.1 = InternalError ∧ r.2 = db)
  ∧ (getResourceType (File.mimetype f) ≠ "raw"%string →
     File.size f < mediaFileSize →
     r = createExpense db requester b (Some (File.path f)) newId now).
Proof.
  intros r. subst r. unfold postCreate, single. split.
  - intros Hsize. destruct (mediaFilter (File.mimetype f)) as [msg|].
    + unfold errorHandler. by case_bool_decide.
    + by rewrite bool_decide_eq_false_2 by lia.
  - intros Htype Hsize. rewrite (mediaFilter_accepts _ Htype).
    by rewrite bool_decide_eq_true_2 by done.
Qed.

Lemma receipt_size_limit_witness :
  outcome (postCreate campus alice dinnerBody
             (Some (File.mk "image/png" (100 * 1024 * 1024) "https://files/r.png"))
             dinnerId 1000).1 = InternalError
  ∧ (postCreate campus alice dinnerBody
       (Some (File.mk "image/png" (100 * 1024 * 1024) "https://files/r.png"))
       dinnerId 1000).2 = campus.
Proof.
  apply (proj1 (receipt_size_limit campus alice dinnerBody
                  (File.mk "image/png" (100 * 1024 * 1024) "https://files/r.png")
                  dinnerId 1000)).
  reflexivity.
Defined.

(** ** The address of a stored document *)

Lemma prefix_skip p : ∀ s,
  String.prefix p s = true → s = p +:+ skip (String.length p) s.
Proof.
  induction p as [|a p IH]; intros s Hp; [done|].
  destruct s as [|b s]; [done|]. cbn in Hp.
  destruct (Ascii.ascii_dec a b) as [->|]; [|done].
  change (String b s = String b (p +:+ skip (String.length p) s)).
  f_equal. by apply IH.
Qed.

Lemma prefix_app p s : String.prefix p (p +:+ s) = true.
Proof.
  induction p as [|a p IH]; [by destruct s|].
  change (String.prefix (String a p) (String a (p +:+ s)) = true).
  cbn [String.prefix]. by destruct (Ascii.ascii_dec a a).
Qed.

(** [replace] rewrites the first occurrence of the pattern and nothing
    else. *)
Lemma replace_first p r : ∀ s,
  includes s p = true →
  ∃ pre post,
    s = pre +:+ p +:+ post
    ∧ replace s p r = pre +:+ r +:+ post
    ∧ ∀ pre' post', s = pre' +:+ p +:+ post' →
        (String.length pre ≤ String.length pre')%nat.
Proof.
  assert (∀ s, String.prefix p s = true →
            ∃ pre post,
              s = pre +:+ p +:+ post
              ∧ replace s p r = pre +:+ r +:+ post
              ∧ ∀ pre' post', s = pre' +:+ p +:+ post' →
                  (String.length pre ≤ String.length pre')%nat) as Hhere.
  { intros s Hp. exists ""%string, (skip (String.length p) s). split_and!.
    - by apply prefix_skip.
    - destruct s; cbn [replace]; by rewrite Hp.
    - intros pre' post' _. cbn [String.length]. lia. }
  induction s as [|c s IH]; intros Hin.
  - apply Hhere. cbn [includes] in Hin. by rewrite orb_false_r in Hin.
  - destruct (String.prefix p (String c s)) eqn:Hp; [by apply Hhere|].
    cbn [includes] in Hin. rewrite Hp in Hin. cbn [orb] in Hin.
    destruct (IH Hin) as (pre & post & Hs & Hr & Hmin).
    exists (String c pre), post. split_and!.
    + change (String c s = String c (pre +:+ p +:+ post)). by rewrite <- Hs.
    + cbn [replace]. by rewrite Hp, Hr.
    + intros pre' post' Heq. destruct pre' as [|c' pre'].
      * change (String c s = p +:+ post') in Heq.
        rewrite Heq, prefix_app in Hp. done.
      * change (String c s = String c' (pre' +:+ p +:+ post')) in Heq.
        injection Heq as _ Heq. cbn [String.length].
        pose proof (Hmin pre' post' Heq). lia.
Qed.

(** X18. [getFileUrl] leaves an address as it is unless it contains
    [/image/upload/] and one of the four document suffixes; in that case it
    rewrites the first [/image/upload/] to [/raw/upload/] and keeps what
    stands before and after it. *)
Theorem getFileUrl_rewrites (fileUrl : string) :
  let document :=
    includes fileUrl ".pdf" || includes fileUrl ".doc"
    || includes fileUrl ".xls" || includes fileUrl ".ppt" in
  (includes fileUrl "/image/upload/" && document = false →
     getFileUrl fileUrl = fileUrl)
  ∧ (includes fileUrl "/image/upload/" && document = true →
     ∃ pre post,
       fileUrl = pre +:+ "/image/upload/" +:+ post
       ∧ getFileUrl fileUrl = pre +:+ "/raw/upload/" +:+ post
       ∧ ∀ pre' post', fileUrl = pre' +:+ "/image/upload/" +:+ post' →
           (String.length pre ≤ String.length pre')%nat).
Proof.
  intros document. subst document. unfold getFileUrl. split.
  - by intros ->.
  - intros Hc. rewrite Hc. apply andb_true_iff in Hc as [Hin _].
    by apply replace_first.
Qed.

Example getFileUrl_document :
  getFileUrl "https://res.cloudinary.com/demo/image/upload/v1/notes/a.pdf"
  = "https://res.cloudinary.com/demo/raw/upload/v1/notes/a.pdf"%string.
Proof. reflexivity. Qed.

Example getFileUrl_picture :
  getFileUrl "https://res.cloudinary.com/demo/image/upload/v1/notes/a.png"
  = "https://res.cloudinary.com/demo/image/upload/v1/notes/a.png"%string.
Proof. reflexivity. Qed.

(** * Settlements in sequence *)

Lemma list_find_alter {A} (P : A → Prop) `{∀ x, Decision (P x)} (f : A → A)
    (l : list A) : ∀ n,
  (∀ x, P (f x) ↔ P x) →
  list_find P (alter f n l)
  = (λ mx : nat * A, (mx.1, if decide (mx.1 = n) then f mx.2 else mx.2))
      <$> list_find P l.
Proof.
  induction l as [|a l IH]; intros n Hf; [done|].
  destruct n as [|n].
  - change (alter f 0%nat (a :: l)) with (f a :: l). cbn [list_find].
    destruct (decide (P a)) as [Ha|Ha].
    + by rewrite decide_True by (by apply Hf).
    + rewrite decide_False by (by rewrite Hf).
      by destruct (list_find P l) as [[m x]|].
  - change (alter f (S n) (a :: l)) with (a :: alter f n l). cbn [list_find].
    destruct (decide (P a)) as [Ha|Ha]; [done|].
    rewrite (IH n Hf). destruct (list_find P l) as [[m x]|]; [|done].
    cbn. destruct (decide (m = n)) as [->|Hne].
    + by rewrite decide_True.
    + by rewrite decide_False by lia.
Qed.

Lemma insert_markShare (l : list Expense.t) n e i s :
  l !! n = Some e → Expense.splitBetween e !! i = Some s →
  <[n := withSplits e (<[i := markPaid s]> (Expense.splitBetween e))]> l
  = markShare n i l.
Proof.
  intros Hn Hi. unfold markShare. rewrite list_insert_alter.
  apply list_alter_ext; [|done]. intros e' He'. simplify_eq. f_equal.
  rewrite list_insert_alter. apply list_alter_ext; [|done].
  intros s' Hs'. by simplify_eq.
Qed.

Lemma pay_target_Some db expenseId userId requester n i :
  target db expenseId userId requester = Some (n, i) →
  payExpense db expenseId userId requester
  = (mkResponse 200 (Message "Marked as paid"),
     mkDb (markShare n i (expenses db)) (events db) (communities db)).
Proof.
  unfold target.
  destruct (castObjectId expenseId) as [id|] eqn:Hc; [|done].
  destruct (list_find _ (expenses db)) as [[n' e]|] eqn:Hn; [|done].
  destruct (list_find _ (Expense.splitBetween e)) as [[i' s]|] eqn:Hs; [|done].
  destruct (negb _ && negb _) eqn:Hg; [done|]. intros [= -> ->].
  rewrite (payExpense_found db expenseId id userId requester n e i s Hc Hn Hs), Hg.
  apply list_find_Some in Hn as (Hn & _). apply list_find_Some in Hs as (Hs & _).
  by rewrite (insert_markShare _ n e i s Hn Hs).
Qed.

Lemma pay_target_None db expenseId userId requester :
  target db expenseId userId requester = None →
  (payExpense db expenseId userId requester).2 = db.
Proof.
  unfold target, payExpense, findById.
  destruct (castObjectId expenseId) as [id|] eqn:Hc; [|done].
  destruct (list_find _ (expenses db)) as [[n' e]|] eqn:Hn; [|done].
  cbn [fmap option_fmap option_map snd].
  destruct (list_find _ (Expense.splitBetween e)) as [[i' s]|] eqn:Hs; [|done].
  by destruct (negb _ && negb _).
Qed.

(** Neither the answer nor the positions marked depend on the settlements
    already made. *)
Lemma pay_after_markShare (l : list Expense.t) evs cs n i expenseId userId requester :
  (payExpense (mkDb (markShare n i l) evs cs) expenseId userId requester).1
  = (payExpense (mkDb l evs cs) expenseId userId requester).1
  ∧ target (mkDb (markShare n i l) evs cs) expenseId userId requester
    = target (mkDb l evs cs) expenseId userId requester.
Proof.
  unfold payExpense, target, findById. cbn [expenses].
  destruct (castObjectId expenseId) as [id|]; [|done].
  unfold markShare. rewrite (list_find_alter _ _ l n) by done.
  destruct (list_find _ l) as [[m e]|]; [|done].
  cbn [fmap option_fmap option_map fst snd].
  destruct (decide (m = n)) as [->|Hne].
  - cbn [withSplits Expense.splitBetween Expense.paidBy].
    rewrite (list_find_alter _ _ (Expense.splitBetween e) i) by done.
    destruct (list_find _ (Expense.splitBetween e)) as [[j s]|]; [|done].
    cbn [fmap option_fmap option_map fst snd].
    assert (Split.user (if decide (j = i) then markPaid s else s) = Split.user s)
      as -> by (by case_decide).
    by destruct (negb _ && negb _).
  - destruct (list_find _ (Expense.splitBetween e)) as [[j s]|]; [|done].
    by destruct (negb _ && negb _).
Qed.

Lemma markShare_comm n1 i1 n2 i2 (l : list Expense.t) :
  markShare n2 i2 (markShare n1 i1 l) = markShare n1 i1 (markShare n2 i2 l).
Proof.
  unfold markShare. destruct (decide (n1 = n2)) as [->|Hn].
  - rewrite !list_alter_alter_eq. apply list_alter_ext; [|done].
    intros e _. unfold compose. cbn [withSplits Expense.splitBetween].
    destruct (decide (i1 = i2)) as [->|Hi]; [done|].
    by rewrite (list_alter_alter_ne _ _ _ i2 i1) by done.
  - by rewrite list_alter_alter_ne by done.
Qed.

(** X19. Two settlements do not get in each other's way: a request to mark
    a share is answered in the same way whether another one was handled
    before it or not, and handling the two requests in either order leaves
    the same store. *)
Theorem settlements_commute (db : Db) (id1 u1 : string) (r1 : ObjectId)
    (id2 u2 : string) (r2 : ObjectId) :
  let a := payExpense db id1 u1 r1 in
  let b := payExpense db id2 u2 r2 in
  (payExpense a.2 id2 u2 r2).1 = b.1
  ∧ (payExpense b.2 id1 u1 r1).1 = a.1
  ∧ (payExpense a.2 id2 u2 r2).2 = (payExpense b.2 id1 u1 r1).2.
Proof.
  destruct db as [l evs cs]. intros a b. subst a b.
  destruct (target (mkDb l evs cs) id1 u1 r1) as [[n1 i1]|] eqn:T1;
    destruct (target (mkDb l evs cs) id2 u2 r2) as [[n2 i2]|] eqn:T2.
  - rewrite (pay_target_Some _ _ _ _ _ _ T1), (pay_target_Some _ _ _ _ _ _ T2).
    cbn [fst snd expenses events communities].
    destruct (pay_after_markShare l evs cs n1 i1 id2 u2 r2) as [R2 T2'].
    destruct (pay_after_markShare l evs cs n2 i2 id1 u1 r1) as [R1 T1'].
    rewrite T2 in T2'. rewrite T1 in T1'.
    rewrite R2, R1, (pay_target_Some _ _ _ _ _ _ T1), (pay_target_Some _ _ _ _ _ _ T2).
    split_and!; [done..|].
    rewrite (pay_target_Some _ _ _ _ _ _ T1'), (pay_target_Some _ _ _ _ _ _ T2').
    cbn [snd expenses events communities]. by rewrite markShare_comm.
  - rewrite (pay_target_Some _ _ _ _ _ _ T1), (pay_target_None _ _ _ _ T2).
    cbn [fst snd expenses events communities].
    destruct (pay_after_markShare l evs cs n1 i1 id2 u2 r2) as [R2 T2'].
    rewrite T2 in T2'.
    rewrite R2, (pay_target_None _ _ _ _ T2'), (pay_target_Some _ _ _ _ _ _ T1).
    done.
  - rewrite (pay_target_None _ _ _ _ T1), (pay_target_Some _ _ _ _ _ _ T2).
    cbn [fst snd expenses events communities].
    destruct (pay_after_markShare l evs cs n2 i2 id1 u1 r1) as [R1 T1'].
    rewrite T1 in T1'.
    by rewrite R1, (pay_target_None _ _ _ _ T1').
  - rewrite (pay_target_None _ _ _ _ T1), (pay_target_None _ _ _ _ T2).
    by rewrite ?(pay_target_None _ _ _ _ T1), ?(pay_target_None _ _ _ _ T2).
Qed.

Lemma getFileUrl_rewrites_witness :
  ∃ pre post,
    "https://cdn/image/upload/a.pdf"%string = pre +:+ "/image/upload/" +:+ post
    ∧ getFileUrl "https://cdn/image/upload/a.pdf" = pre +:+ "/raw/upload/" +:+ post
    ∧ ∀ pre' post',
        "https://cdn/image/upload/a.pdf"%string
        = pre' +:+ "/image/upload/" +:+ post' →
        (String.length pre ≤ String.length pre')%nat.
Proof.
  apply (proj2 (getFileUrl_rewrites "https://cdn/image/upload/a.pdf")).
  reflexivity.
Defined.
